(** * lume-model: the PyTorch model adapter

    A shallow embedding of [lume_model/pytorch/__init__.py]: the class
    [PyTorchModel] and the seven stages of its [evaluate] method, followed
    by the properties of those stages.

    Python objects are modelled by value.  The two variable registries are
    insertion-ordered dictionaries (association lists whose keys are
    pairwise distinct, each key holding an object of its own); the
    caller's dictionary and the dictionaries the stages build are finite
    maps.  Exceptions are explicit: every stage runs in a state-and-
    exception monad over the adapter object and the logger. *)

From Stdlib Require Import Ascii String.
From stdpp Require Import gmap strings list fin_maps.

Local Open Scope string_scope.
Local Open Scope list_scope.

(** ** Exceptions *)

Inductive exn : Type :=
  | KeyError (key : string)
  | AttributeError (attr : string)
  | IndexError
  | OverflowError
  | RuntimeError (op : string).

Inductive outcome (A : Type) : Type :=
  | Returns (a : A)
  | Raises (e : exn).
Arguments Returns {A} a.
Arguments Raises {A} e.

Definition is_returns {A} (o : outcome A) : bool :=
  match o with Returns _ => true | Raises _ => false end.

#[global] Instance outcome_ret : MRet outcome := λ A a, Returns a.
#[global] Instance outcome_bind : MBind outcome := λ A B f o,
  match o with
  | Returns a => f a
  | Raises e => Raises e
  end.

#[global] Instance outcome_fmap : FMap outcome := λ A B f o,
  match o with
  | Returns a => Returns (f a)
  | Raises e => Raises e
  end.

(** ** Numbers and tensors

    Python numbers are kept abstract; the only operation the adapter
    needs on them is the conversion [torch.tensor(x, dtype=torch.double)]
    performs.  The operations of torch that the adapter calls follow the
    library's documented behaviour; a failure of one of them is a
    [RuntimeError] tagged with the name of the operation. *)

Class PyNumber (scalar : Type) := as_double : scalar → scalar.

Inductive dtype : Type := torch_double | torch_float | torch_long.

#[global] Instance dtype_eq_dec : EqDecision dtype.
Proof. solve_decision. Defined.

Definition promote_types (a b : dtype) : dtype :=
  match a, b with
  | torch_double, _ | _, torch_double => torch_double
  | torch_float, _ | _, torch_float => torch_float
  | torch_long, torch_long => torch_long
  end.

Section Adapter.
Context {scalar : Type} `{!PyNumber scalar}.

(** A tensor: its elements in row-major order, its sizes, its element
    type and whether autograd tracks it. *)
Record Tensor : Type := mkTensor {
  tdata : list scalar;
  tshape : list nat;
  tdtype : dtype;
  requires_grad : bool
}.

Definition numel (t : Tensor) : nat := length (tdata t).

(** What a variable's [value] (or [default], or a bound) can hold. *)
Inductive pyval : Type :=
  | VNone
  | VNum (x : scalar)
  | VTensor (t : Tensor)
  | VArray (elems : list scalar) (dims : list nat).

(** [torch.is_tensor(v)] *)
Definition is_tensor (v : pyval) : bool :=
  match v with VTensor _ => true | _ => false end.

(** [torch.tensor(v, dtype=torch.double, requires_grad=True)] *)
Definition torch_tensor (v : pyval) : outcome Tensor :=
  match v with
  | VNone => Raises (RuntimeError "tensor")
  | VNum x => Returns (mkTensor [as_double x] [] torch_double true)
  | VTensor t => Returns (mkTensor (as_double <$> tdata t) (tshape t) torch_double true)
  | VArray elems dims => Returns (mkTensor (as_double <$> elems) dims torch_double true)
  end.

(** [t.item()] *)
Definition item (t : Tensor) : outcome scalar :=
  match tdata t with
  | [x] => Returns x
  | _ => Raises (RuntimeError "item")
  end.

Definition prod_nat (dims : list nat) : nat := foldr Nat.mul 1 dims.

(** [t[idx]]: the [idx]-th slice along the first dimension. *)
Definition getitem (t : Tensor) (idx : nat) : outcome Tensor :=
  match tshape t with
  | [] => Raises IndexError
  | d :: dims =>
      if decide (idx < d)
      then Returns (mkTensor (take (prod_nat dims) (drop (idx * prod_nat dims) (tdata t)))
                             dims (tdtype t) (requires_grad t))
      else Raises IndexError
  end.

(** [torch.stack(ts)] *)
Definition torch_stack (ts : list Tensor) : outcome Tensor :=
  match ts with
  | [] => Raises (RuntimeError "stack")
  | t :: rest =>
      if forallb (λ t', bool_decide (tshape t' = tshape t)) rest
      then Returns (mkTensor (concat (tdata <$> ts)) (length ts :: tshape t)
                             (foldr promote_types (tdtype t) (tdtype <$> rest))
                             (existsb requires_grad ts))
      else Raises (RuntimeError "stack")
  end.

(** The size inference of [t.reshape(shape)]: every size is at least
    [-1]; at most one is [-1], and it is then computed from the element
    count [n], which must be a multiple of the product [known] of the
    other sizes; without a [-1] the product must be [n]. *)
Definition infer_size (shape : list Z) (n : nat) : outcome (list nat) :=
  if existsb (λ d, bool_decide (d < -1)%Z) shape
  then Raises (RuntimeError "reshape")
  else
    let known := foldr Z.mul 1%Z (filter (λ d, d ≠ (-1)%Z) shape) in
    match length (filter (λ d, d = (-1)%Z) shape) with
    | 0 =>
        if decide (Z.of_nat n = known)
        then Returns (Z.to_nat <$> shape)
        else Raises (RuntimeError "reshape")
    | 1 =>
        if decide (0 < known ∧ Z.of_nat n mod known = 0)%Z
        then Returns ((λ d, if decide (d = (-1)%Z)
                            then Z.to_nat (Z.of_nat n / known)
                            else Z.to_nat d) <$> shape)
        else Raises (RuntimeError "reshape")
    | _ => Raises (RuntimeError "reshape")
    end.

(** [t.reshape(shape)] *)
Definition reshape (t : Tensor) (shape : list Z) : outcome Tensor :=
  dims ← infer_size shape (numel t);
  Returns (mkTensor (tdata t) dims (tdtype t) (requires_grad t)).

(** [t.numpy()] *)
Definition numpy (t : Tensor) : outcome pyval :=
  if requires_grad t
  then Raises (RuntimeError "numpy")
  else Returns (VArray (tdata t) (tshape t)).

(** ** Variables

    Modelled from the spec: the variable classes of [lume_model.variables]
    (not among the sources).  A variable record holds a name, a current
    value and a default, a kind tag (["scalar"] or ["image"]) and, for
    images, a shape, four axis bounds and four optional back-references
    naming the outputs that supply those bounds.  One record type serves
    input and output variables. *)
Record variable_record : Type := mkVariable {
  name : string;
  variable_type : string;
  value : pyval;
  default : pyval;
  shape : list Z;
  x_min : pyval;
  x_max : pyval;
  y_min : pyval;
  y_max : pyval;
  x_min_variable : option string;
  x_max_variable : option string;
  y_min_variable : option string;
  y_max_variable : option string
}.

(** Attribute assignments [var.value = v], [var.x_min = v], ... *)
Definition set_value (v : pyval) (var : variable_record) : variable_record :=
  mkVariable (name var) (variable_type var) v (default var) (shape var)
    (x_min var) (x_max var) (y_min var) (y_max var)
    (x_min_variable var) (x_max_variable var) (y_min_variable var) (y_max_variable var).
Definition set_x_min (v : pyval) (var : variable_record) : variable_record :=
  mkVariable (name var) (variable_type var) (value var) (default var) (shape var)
    v (x_max var) (y_min var) (y_max var)
    (x_min_variable var) (x_max_variable var) (y_min_variable var) (y_max_variable var).
Definition set_x_max (v : pyval) (var : variable_record) : variable_record :=
  mkVariable (name var) (variable_type var) (value var) (default var) (shape var)
    (x_min var) v (y_min var) (y_max var)
    (x_min_variable var) (x_max_variable var) (y_min_variable var) (y_max_variable var).
Definition set_y_min (v : pyval) (var : variable_record) : variable_record :=
  mkVariable (name var) (variable_type var) (value var) (default var) (shape var)
    (x_min var) (x_max var) v (y_max var)
    (x_min_variable var) (x_max_variable var) (y_min_variable var) (y_max_variable var).
Definition set_y_max (v : pyval) (var : variable_record) : variable_record :=
  mkVariable (name var) (variable_type var) (value var) (default var) (shape var)
    (x_min var) (x_max var) (y_min var) v
    (x_min_variable var) (x_max_variable var) (y_min_variable var) (y_max_variable var).

(** The truth value of an optional string attribute: [None] and the empty
    string are false. *)
Definition truthy (o : option string) : option string :=
  match o with
  | Some s => if decide (s = "") then None else Some s
  | None => None
  end.

(** ** Insertion-ordered dictionaries with string keys *)

Definition dict (V : Type) : Type := list (string * V).

Definition keys {V} (d : dict V) : list string := fst <$> d.
Definition values {V} (d : dict V) : list V := snd <$> d.

Fixpoint dict_get {V} (d : dict V) (k : string) : option V :=
  match d with
  | [] => None
  | (k', v) :: d' => if decide (k' = k) then Some v else dict_get d' k
  end.

(** [d[k].attr = ...]: the object held under [k] is changed in place. *)
Fixpoint dict_alter {V} (f : V → V) (k : string) (d : dict V) : dict V :=
  match d with
  | [] => []
  | (k', v) :: d' =>
      if decide (k' = k) then (k', f v) :: d' else (k', v) :: dict_alter f k d'
  end.

(** ** The adapter object *)

(** A [ReversibleInputTransform] in evaluation mode: calling it applies
    the transform, [untransform] applies its inverse. *)
Record Transformer : Type := mkTransformer {
  transform : Tensor → outcome Tensor;
  untransform : Tensor → outcome Tensor
}.

Record PyTorchModel : Type := mkPyTorchModel {
  input_variables : dict variable_record;
  output_variables : dict variable_record;
  _output_format : gmap string string;
  _input_transformers : list Transformer;
  _output_transformers : list Transformer;
  _model : Tensor → outcome Tensor;
  _feature_order : option (list string);
  _output_order : option (list string)
}.

Definition with_input_variables (d : dict variable_record) (self : PyTorchModel) : PyTorchModel :=
  mkPyTorchModel d (output_variables self) (_output_format self)
    (_input_transformers self) (_output_transformers self) (_model self)
    (_feature_order self) (_output_order self).
Definition with_output_variables (d : dict variable_record) (self : PyTorchModel) : PyTorchModel :=
  mkPyTorchModel (input_variables self) d (_output_format self)
    (_input_transformers self) (_output_transformers self) (_model self)
    (_feature_order self) (_output_order self).

(** What a caller can put under a name in the dictionary it passes to
    [evaluate], as the two [isinstance] tests tell it apart. *)
Inductive input_entry : Type :=
  | AnInputVariable (var : variable_record)  (* isinstance(x, InputVariable) *)
  | AFloat (x : scalar)                      (* isinstance(x, float) *)
  | ATensor (t : Tensor)                     (* neither, and x.item exists *)
  | AnInt (n : Z)                            (* a Python int: neither, and no x.item *)
  | AnObject.                                (* neither, and no x.item: None, a str, ... *)

(** A record of the module's logger. *)
Inductive log_record : Type := INFO (msg : string).

(** ** The state-and-exception monad of the methods *)

Record world : Type := mkWorld {
  self : PyTorchModel;
  logger : list log_record
}.

Definition M (A : Type) : Type := world → outcome A * world.

#[global] Instance M_ret : MRet M := λ A a w, (Returns a, w).
#[global] Instance M_bind : MBind M := λ A B f m w,
  match m w with
  | (Returns a, w') => f a w'
  | (Raises e, w') => (Raises e, w')
  end.

Definition lift {A} (o : outcome A) : M A := λ w, (o, w).
Definition raise {A} (e : exn) : M A := λ w, (Raises e, w).
Definition get_self : M PyTorchModel := λ w, (Returns (self w), w).
Definition modify_self (f : PyTorchModel → PyTorchModel) : M unit :=
  λ w, (Returns (), mkWorld (f (self w)) (logger w)).
Definition logger_info (msg : string) : M unit :=
  λ w, (Returns (), mkWorld (self w) (logger w ++ [INFO msg])).

(** [try: body except KeyError as e: handler(e)] *)
Definition try_except_KeyError {A} (body : M A) (handler : string → M A) : M A :=
  λ w, match body w with
       | (Raises (KeyError k), w') => handler k w'
       | r => r
       end.

(** [for x in xs: body(x)] *)
Fixpoint for_each {A} (xs : list A) (body : A → M unit) : M unit :=
  match xs with
  | [] => mret ()
  | x :: xs' => body x;; for_each xs' body
  end.

(** [for x in xs: acc = body(acc, x)] *)
Fixpoint for_fold {A B} (xs : list A) (acc : B) (body : B → A → M B) : M B :=
  match xs with
  | [] => mret acc
  | x :: xs' => acc' ← body acc x; for_fold xs' acc' body
  end.

(** ** The methods of [PyTorchModel] *)

(** [d[k]] on a dictionary built by the caller or by a stage. *)
Definition subscript {V} (d : gmap string V) (k : string) : outcome V :=
  match d !! k with
  | Some v => Returns v
  | None => Raises (KeyError k)
  end.

(** [repr(s)] for a [str].  A character of a name is a code point below
    256.  The string is put between single quotes, or between double
    quotes when it holds a single quote and no double quote; the chosen
    quote and the backslash are escaped with a backslash, tab, newline
    and carriage return are written [\t], [\n], [\r], and every other
    character that is not printable (the control characters, the
    no-break space and the soft hyphen) is written [\x] and two
    lowercase hexadecimal digits. *)
Definition single_quote : ascii := ascii_of_N 39.
Definition double_quote : ascii := ascii_of_N 34.
Definition backslash : ascii := ascii_of_N 92.

Definition hex_digit (n : N) : ascii :=
  match list_ascii_of_string "0123456789abcdef" !! N.to_nat n with
  | Some c => c
  | None => "0"%char
  end.

Definition hex_escape (c : ascii) : string :=
  let n := N_of_ascii c in
  String backslash (String "x"%char
    (String (hex_digit (n / 16)) (String (hex_digit (n mod 16)) EmptyString))).

Definition printable (c : ascii) : bool :=
  let n := N_of_ascii c in
  bool_decide (32 ≤ n < 127 ∨ (160 < n ∧ n ≠ 173))%N.

Definition repr_char (quote c : ascii) : string :=
  let n := N_of_ascii c in
  if decide (c = quote ∨ c = backslash) then String backslash (String c EmptyString)
  else if decide (n = 9%N) then String backslash (String "t"%char EmptyString)
  else if decide (n = 10%N) then String backslash (String "n"%char EmptyString)
  else if decide (n = 13%N) then String backslash (String "r"%char EmptyString)
  else if printable c then String c EmptyString
  else hex_escape c.

Fixpoint repr_chars (quote : ascii) (s : string) : string :=
  match s with
  | EmptyString => EmptyString
  | String c s' => repr_char quote c +:+ repr_chars quote s'
  end.

Definition py_repr (s : string) : string :=
  let chars := list_ascii_of_string s in
  let quote := if decide (single_quote ∈ chars ∧ double_quote ∉ chars)
               then double_quote else single_quote in
  String quote (repr_chars quote s +:+ String quote EmptyString).

(** [str(e)] for [e = KeyError(k)]: the [repr] of the key. *)
Definition str_KeyError (k : string) : string := py_repr k.

(** [var.value = v] for the variable registered under [var_name]. *)
Definition assign_input (var_name : string) (v : pyval) : M unit :=
  modify_self (λ s,
    with_input_variables (dict_alter (set_value v) var_name (input_variables s)) s).

(** The value the [try] block of [_prepare_inputs] assigns for the entry
    [input_variables[var_name]]. *)
Definition entry_value (e : input_entry) : outcome pyval :=
  match e with
  | AnInputVariable var => Returns (value var)
  | AFloat x => Returns (VNum x)
  | ATensor t => x ← item t; Returns (VNum x)
  | AnInt _ => Raises (AttributeError "item")
  | AnObject => Raises (AttributeError "item")
  end.

(** The body of the first loop of [_prepare_inputs]. *)
Definition resolve_input (input_variables0 : gmap string input_entry)
    (item : string * variable_record) : M unit :=
  let '(var_name, var) := item in
  try_except_KeyError
    (e ← lift (subscript input_variables0 var_name);
     v ← lift (entry_value e);
     assign_input var_name v)
    (λ k,
     logger_info (str_KeyError k +:+ " missing from input_dict, using default value");;
     assign_input var_name (default var)).

(** The body of the second loop of [_prepare_inputs].  The mapping holds
    tensors, so the branch taken when [torch.is_tensor(var.value)] holds
    reads the tensor out of the value; its second case cannot occur. *)
Definition as_tensor (acc : gmap string Tensor) (item : string * variable_record)
    : M (gmap string Tensor) :=
  let '(var_name, var) := item in
  if is_tensor (value var)
  then match value var with
       | VTensor t => mret (<[var_name := t]> acc)
       | _ => mret acc
       end
  else t ← lift (torch_tensor (value var)); mret (<[var_name := t]> acc).

(** The two loops of [_prepare_inputs]. *)
Definition resolve_inputs (input_variables0 : gmap string input_entry) : M unit :=
  s ← get_self;
  for_each (input_variables s) (resolve_input input_variables0).

Definition as_tensors : M (gmap string Tensor) :=
  s ← get_self;
  for_fold (input_variables s) ∅ as_tensor.

Definition _prepare_inputs (input_variables0 : gmap string input_entry)
    : M (gmap string Tensor) :=
  resolve_inputs input_variables0;;
  as_tensors.

Definition _arrange_inputs (input_variables0 : gmap string Tensor) : M Tensor :=
  s ← get_self;
  features ←
    match _feature_order s with
    | Some feature_order =>
        for_fold feature_order [] (λ features feature_name,
          t ← lift (subscript input_variables0 feature_name);
          mret (features ++ [t]))
    | None =>
        for_fold (keys (input_variables s)) [] (λ features feature_name,
          t ← lift (subscript input_variables0 feature_name);
          mret (features ++ [t]))
    end;
  lift (torch_stack features).

Definition _transform_inputs (input_values : Tensor) : M Tensor :=
  s ← get_self;
  for_fold (_input_transformers s) input_values (λ input_values transformer,
    lift (transform transformer input_values)).

Definition _transform_outputs (model_output : Tensor) : M Tensor :=
  s ← get_self;
  for_fold (_output_transformers s) model_output (λ model_output transformer,
    lift (untransform transformer model_output)).

(** [enumerate(xs)] *)
Definition enumerate {A} (xs : list A) : list (nat * A) := imap (λ idx x, (idx, x)) xs.

Definition _parse_outputs (model_output : Tensor) : M (gmap string Tensor) :=
  s ← get_self;
  match _output_order s with
  | Some output_order =>
      for_fold (enumerate output_order) ∅ (λ output '(idx, output_name),
        t ← lift (getitem model_output idx);
        mret (<[output_name := t]> output))
  | None =>
      for_fold (enumerate (keys (output_variables s))) ∅ (λ output '(idx, output_name),
        t ← lift (getitem model_output idx);
        mret (<[output_name := t]> output))
  end.

(** [self.output_variables[k]] *)
Definition output_variable (k : string) : M variable_record :=
  s ← get_self;
  match dict_get (output_variables s) k with
  | Some var => mret var
  | None => raise (KeyError k)
  end.

(** [self.output_variables[k].attr = v], the right-hand side [v] already
    evaluated; [f] is the attribute assignment. *)
Definition assign_output (k : string) (f : variable_record → variable_record) : M unit :=
  _ ← output_variable k;
  modify_self (λ s, with_output_variables (dict_alter f k (output_variables s)) s).

(** One of the four [if ...: ... = predicted_output[...].item()] blocks
    that update the limits of the image registered under [k]. *)
Definition update_limit (predicted_output : gmap string Tensor) (k : string)
    (reference : variable_record → option string)
    (assign : pyval → variable_record → variable_record) : M unit :=
  var ← output_variable k;
  match truthy (reference var) with
  | Some r =>
      t ← lift (subscript predicted_output r);
      x ← lift (item t);
      assign_output k (assign (VNum x))
  | None => mret ()
  end.

(** The body of the loop of [_prepare_outputs]. *)
Definition update_output (predicted_output : gmap string Tensor)
    (variable : variable_record) : M unit :=
  if decide (variable_type variable = "scalar") then
    t ← lift (subscript predicted_output (name variable));
    x ← lift (item t);
    assign_output (name variable) (set_value (VNum x))
  else if decide (variable_type variable = "image") then
    t ← lift (subscript predicted_output (name variable));
    t' ← lift (reshape t (shape variable));
    a ← lift (numpy t');
    assign_output (name variable) (set_value a);;
    update_limit predicted_output (name variable) x_min_variable set_x_min;;
    update_limit predicted_output (name variable) x_max_variable set_x_max;;
    update_limit predicted_output (name variable) y_min_variable set_y_min;;
    update_limit predicted_output (name variable) y_max_variable set_y_max
  else mret ().

(** The three shapes of the value [evaluate] returns. *)
Inductive evaluate_output : Type :=
  | Tensors (predicted_output : gmap string Tensor)
  | Variables (output_variables : dict variable_record)
  | Values (current : dict pyval).

(** [{key: var.value for key, var in d.items()}] *)
Definition current_values (d : dict variable_record) : dict pyval :=
  (λ '(key, var), (key, value var)) <$> d.

(** The loop of [_prepare_outputs]. *)
Definition update_outputs (predicted_output : gmap string Tensor) : M unit :=
  s ← get_self;
  for_each (values (output_variables s)) (update_output predicted_output).

(** The final [if]/[elif]/[else] of [_prepare_outputs];
    [_output_format.get("type")] is the lookup of the key. *)
Definition format_outputs (predicted_output : gmap string Tensor) : M evaluate_output :=
  s ← get_self;
  if decide (_output_format s !! "type" = Some "tensor") then
    mret (Tensors predicted_output)
  else if decide (_output_format s !! "type" = Some "variable") then
    mret (Variables (output_variables s))
  else
    mret (Values (current_values (output_variables s))).

Definition _prepare_outputs (predicted_output : gmap string Tensor) : M evaluate_output :=
  update_outputs predicted_output;;
  format_outputs predicted_output.

Definition evaluate (input_variables0 : gmap string input_entry) : M evaluate_output :=
  input_vals ← _prepare_inputs input_variables0;
  input_vals ← _arrange_inputs input_vals;
  features ← _transform_inputs input_vals;
  raw_output ← (s ← get_self; lift (_model s features));
  transformed_output ← _transform_outputs raw_output;
  output ← _parse_outputs transformed_output;
  _prepare_outputs output.

(** ** The properties of [PyTorchModel] and their setters *)

Definition with_input_transformers (chain : list Transformer) (self : PyTorchModel)
    : PyTorchModel :=
  mkPyTorchModel (input_variables self) (output_variables self) (_output_format self)
    chain (_output_transformers self) (_model self)
    (_feature_order self) (_output_order self).
Definition with_output_transformers (chain : list Transformer) (self : PyTorchModel)
    : PyTorchModel :=
  mkPyTorchModel (input_variables self) (output_variables self) (_output_format self)
    (_input_transformers self) chain (_model self)
    (_feature_order self) (_output_order self).

(** The bounds of the C type [Py_ssize_t] (on a 64-bit build of
    CPython), which [list.insert] converts its index to. *)
Definition PY_SSIZE_T_MAX : Z := 2 ^ 63 - 1.
Definition PY_SSIZE_T_MIN : Z := - 2 ^ 63.

(** [l.insert(i, x)]: an index that does not fit a [Py_ssize_t] raises
    [OverflowError]; otherwise a negative index counts from the end, and
    an index beyond either end is clamped to that end. *)
Definition py_insert {A} (i : Z) (x : A) (l : list A) : outcome (list A) :=
  if decide (PY_SSIZE_T_MIN ≤ i ≤ PY_SSIZE_T_MAX)%Z then
    let n := Z.of_nat (length l) in
    let i := if decide (i < 0)%Z then Z.max 0 (i + n) else Z.min i n in
    Returns (take (Z.to_nat i) l ++ x :: drop (Z.to_nat i) l)
  else Raises OverflowError.

Definition features : M (option (list string)) :=
  s ← get_self; mret (_feature_order s).

Definition outputs : M (option (list string)) :=
  s ← get_self; mret (_output_order s).

Definition input_transformers : M (list Transformer) :=
  s ← get_self; mret (_input_transformers s).

Definition output_transformers : M (list Transformer) :=
  s ← get_self; mret (_output_transformers s).

(** [model.input_transformers = (transformer, loc)] *)
Definition input_transformers_setter (new_transformer : Transformer * Z) : M unit :=
  let '(transformer, loc) := new_transformer in
  s ← get_self;
  chain ← lift (py_insert loc transformer (_input_transformers s));
  modify_self (with_input_transformers chain).

(** [model.output_transformers = (transformer, loc)] *)
Definition output_transformers_setter (new_transformer : Transformer * Z) : M unit :=
  let '(transformer, loc) := new_transformer in
  s ← get_self;
  chain ← lift (py_insert loc transformer (_output_transformers s));
  modify_self (with_output_transformers chain).

End Adapter.

(** * Two small adapters over integers

    Numbers are integers here, and the conversion to double precision
    leaves them as they are. *)

#[global] Instance PyNumber_Z : PyNumber Z := λ x, x.

Definition scalar_variable (n : string) (d : Z) : variable_record (scalar := Z) :=
  mkVariable n "scalar" VNone (VNum d) [] VNone VNone VNone VNone None None None None.

Definition image_variable (n : string) (dims : list Z) (x_min_ref : option string)
    : variable_record (scalar := Z) :=
  mkVariable n "image" VNone VNone dims (VNum 0%Z) (VNum 10%Z) (VNum 0%Z) (VNum 10%Z)
    x_min_ref None None None.

(** A model that returns its input detached from the autograd graph. *)
Definition detached_identity (x : Tensor (scalar := Z)) : outcome (Tensor (scalar := Z)) :=
  Returns (mkTensor (tdata x) (tshape x) (tdtype x) false).

(** A model that returns one row of six numbers whatever its input. *)
Definition six_pixels (x : Tensor (scalar := Z)) : outcome (Tensor (scalar := Z)) :=
  Returns (mkTensor [1; 2; 3; 4; 5; 6]%Z [1; 6] torch_double false).

(** Adding [n] to every element, undone by subtracting it. *)
Definition shift (n : Z) : Transformer (scalar := Z) :=
  mkTransformer
    (λ x, Returns (mkTensor ((λ e, e + n)%Z <$> tdata x) (tshape x) (tdtype x) (requires_grad x)))
    (λ x, Returns (mkTensor ((λ e, e - n)%Z <$> tdata x) (tshape x) (tdtype x) (requires_grad x))).

(** Multiplying every element by [n], undone by dividing by it. *)
Definition scale (n : Z) : Transformer (scalar := Z) :=
  mkTransformer
    (λ x, Returns (mkTensor ((λ e, e * n)%Z <$> tdata x) (tshape x) (tdtype x) (requires_grad x)))
    (λ x, Returns (mkTensor ((λ e, e / n)%Z <$> tdata x) (tshape x) (tdtype x) (requires_grad x))).

(** Inputs [a] and [b]; outputs the scalar [low] and the one-pixel image
    [img], whose lower x limit follows [low]. *)
Definition two_outputs (dims : list Z) (fmt : gmap string string)
    (feature_order : option (list string)) (chain : list Transformer)
    : PyTorchModel (scalar := Z) :=
  mkPyTorchModel
    [("a", scalar_variable "a" 1); ("b", scalar_variable "b" 2)]
    [("low", scalar_variable "low" 0); ("img", image_variable "img" dims (Some "low"))]
    fmt [] chain detached_identity feature_order None.


(** The caller supplies [a] and leaves [b] out. *)
Definition only_a : gmap string (input_entry (scalar := Z)) := {[ "a" := AFloat 5%Z ]}.

Definition fresh (s : PyTorchModel (scalar := Z)) : world (scalar := Z) := mkWorld s [].

(** The adapter used below, the mapping its input preparation returns
    for [only_a], and the world that preparation leaves. *)
Definition adapter : PyTorchModel (scalar := Z) :=
  two_outputs [1; 1]%Z {[ "type" := "variable" ]} None [].

Definition prepared_tensors : gmap string (Tensor (scalar := Z)) :=
  {[ "a" := mkTensor [5%Z] [] torch_double true;
     "b" := mkTensor [2%Z] [] torch_double true ]}.

Definition prepared_world : world (scalar := Z) :=
  mkWorld
    (with_input_variables
       [("a", set_value (VNum 5%Z) (scalar_variable "a" 1));
        ("b", set_value (VNum 2%Z) (scalar_variable "b" 2))] adapter)
    [INFO "'b' missing from input_dict, using default value"].



(** A transformer that fails in both directions. *)
Definition broken : Transformer (scalar := Z) :=
  mkTransformer (λ _, Raises (RuntimeError "transform"))
                (λ _, Raises (RuntimeError "untransform")).

(** The first adapter with an output order that leaves the image out. *)
Definition low_only : PyTorchModel (scalar := Z) :=
  mkPyTorchModel
    [("a", scalar_variable "a" 1); ("b", scalar_variable "b" 2)]
    [("low", scalar_variable "low" 0); ("img", image_variable "img" [1; 1]%Z (Some "low"))]
    {[ "type" := "variable" ]} [] [] detached_identity None (Some ["low"]).

(** One input, one scalar output fed by [six_pixels]. *)
Definition one_scalar : PyTorchModel (scalar := Z) :=
  mkPyTorchModel
    [("a", scalar_variable "a" 1)]
    [("low", scalar_variable "low" 0)]
    {[ "type" := "variable" ]} [] [] six_pixels None None.

(** A variable of a kind the adapter does not update, and an adapter
    that has one among its outputs. *)
Definition table_variable (n : string) : variable_record (scalar := Z) :=
  mkVariable n "array" VNone VNone [] VNone VNone VNone VNone None None None None.

Definition with_table : PyTorchModel (scalar := Z) :=
  mkPyTorchModel
    [("a", scalar_variable "a" 1); ("b", scalar_variable "b" 2)]
    [("low", scalar_variable "low" 0); ("tab", table_variable "tab")]
    {[ "type" := "variable" ]} [] [] detached_identity None None.

(** The caller supplies an object without [item] for [b] and leaves [a] out. *)
Definition bad_b : gmap string (input_entry (scalar := Z)) := {[ "b" := AnObject ]}.

(** The caller supplies the int 7 for [a], and the float 7 for [a]. *)
Definition int_a : gmap string (input_entry (scalar := Z)) := {[ "a" := AnInt 7 ]}.
Definition float_a : gmap string (input_entry (scalar := Z)) := {[ "a" := AFloat 7%Z ]}.

(** A model that returns two rows of three numbers whatever its input,
    and an adapter that reads a scalar from the first row and an image
    from the second. *)
Definition two_rows (x : Tensor (scalar := Z)) : outcome (Tensor (scalar := Z)) :=
  Returns (mkTensor [1; 2; 3; 4; 5; 6]%Z [2; 3] torch_double false).

Definition scalar_then_image : PyTorchModel (scalar := Z) :=
  mkPyTorchModel
    [("a", scalar_variable "a" 1)]
    [("low", scalar_variable "low" 0); ("img", image_variable "img" [4; 4]%Z None)]
    {[ "type" := "variable" ]} [] [] two_rows None None.

(** * Properties *)

Section Properties.
Context {scalar : Type} `{!PyNumber scalar}.

Local Abbreviation Tensor := (@Tensor scalar).
Local Abbreviation pyval := (@pyval scalar).
Local Abbreviation variable_record := (@variable_record scalar).
Local Abbreviation Transformer := (@Transformer scalar).
Local Abbreviation PyTorchModel := (@PyTorchModel scalar).
Local Abbreviation input_entry := (@input_entry scalar).
Local Abbreviation evaluate_output := (@evaluate_output scalar).
Local Abbreviation world := (@world scalar).
Local Abbreviation M := (@M scalar).

(** ** Vocabulary of the statements *)

(** The world [w] with the adapter's [_output_format] replaced. *)
Definition with_output_format (fmt : gmap string string) (w : world) : world :=
  mkWorld
    (mkPyTorchModel (input_variables (self w)) (output_variables (self w)) fmt
       (_input_transformers (self w)) (_output_transformers (self w)) (_model (self w))
       (_feature_order (self w)) (_output_order (self w)))
    (logger w).

(** Replacing the format beforehand changes neither the outcome of [m]
    nor what [m] does to the world. *)
Definition ignores_format {A} (m : M A) : Prop :=
  ∀ fmt w, m (with_output_format fmt w) = (fst (m w), with_output_format fmt (snd (m w))).

(** Whether [m] returns or raises, the world it leaves is [R]-related to
    the world it started in. *)
Definition within (R : relation world) {A} (m : M A) : Prop :=
  ∀ w, R w (snd (m w)).

(** [m1] and [m2] have the same outcome and leave the same adapter
    whenever they start from the same adapter, whatever the loggers
    hold. *)
Definition agree {A} (m1 m2 : M A) : Prop :=
  ∀ w1 w2, self w1 = self w2 →
    fst (m1 w1) = fst (m2 w2) ∧ self (snd (m1 w1)) = self (snd (m2 w2)).


(** The attributes of the adapter that no stage assigns. *)
Definition configuration (s : PyTorchModel) :=
  (_output_format s, _input_transformers s, _output_transformers s, _model s,
   _feature_order s, _output_order s).

(** Only the input registry and the logger may differ. *)
Definition inputs_frame (w w' : world) : Prop :=
  configuration (self w') = configuration (self w)
  ∧ output_variables (self w') = output_variables (self w).

(** Only the output registry may differ. *)
Definition outputs_frame (w w' : world) : Prop :=
  configuration (self w') = configuration (self w)
  ∧ input_variables (self w') = input_variables (self w)
  ∧ logger w' = logger w.

(** The first six statements of [evaluate]: everything up to the parsed
    mapping that [_prepare_outputs] receives. *)
Definition parsed_outputs (input_variables0 : gmap string input_entry)
    : M (gmap string Tensor) :=
  input_vals ← _prepare_inputs input_variables0;
  input_vals ← _arrange_inputs input_vals;
  features ← _transform_inputs input_vals;
  raw_output ← (s ← get_self; lift (_model s features));
  transformed_output ← _transform_outputs raw_output;
  _parse_outputs transformed_output.

(** The value the first loop stores for the variable registered under
    [var_name]: the caller's entry if there is one, the default if not. *)
Definition resolved_value (input_variables0 : gmap string input_entry)
    (var_name : string) (var : variable_record) : outcome pyval :=
  match input_variables0 !! var_name with
  | Some e => entry_value e
  | None => Returns (default var)
  end.

(** The record logged for a name the caller left out. *)
Definition missing_record (var_name : string) : log_record :=
  INFO (str_KeyError var_name +:+ " missing from input_dict, using default value").

(** The registry the first loop leaves, when no entry makes it raise. *)
Fixpoint resolved_registry (input_variables0 : gmap string input_entry)
    (items : dict variable_record) : outcome (dict variable_record) :=
  match items with
  | [] => Returns []
  | (var_name, var) :: items' =>
      v ← resolved_value input_variables0 var_name var;
      rest ← resolved_registry input_variables0 items';
      Returns ((var_name, set_value v var) :: rest)
  end.

(** The records the first loop logs: one per registered name the caller
    left out, in registry order. *)
Definition missing_records (input_variables0 : gmap string input_entry)
    (items : dict variable_record) : list log_record :=
  omap (λ var_name,
          match input_variables0 !! var_name with
          | Some _ => None
          | None => Some (missing_record var_name)
          end) (keys items).

(** What the second loop stores for a value: the value itself when it is
    a tensor, its conversion otherwise. *)
Definition coerced (v : pyval) : outcome Tensor :=
  if is_tensor v
  then match v with VTensor t => Returns t | _ => torch_tensor v end
  else torch_tensor v.

(** The mapping the second loop builds from the registry [items]. *)
Fixpoint tensors_from (acc : gmap string Tensor) (items : dict variable_record)
    : outcome (gmap string Tensor) :=
  match items with
  | [] => Returns acc
  | (var_name, var) :: items' =>
      t ← coerced (value var); tensors_from (<[var_name := t]> acc) items'
  end.

(** The statements of [evaluate] after the first. *)
Definition evaluate_from_inputs (input_vals : gmap string Tensor) : M evaluate_output :=
  input_vals ← _arrange_inputs input_vals;
  features ← _transform_inputs input_vals;
  raw_output ← (s ← get_self; lift (_model s features));
  transformed_output ← _transform_outputs raw_output;
  output ← _parse_outputs transformed_output;
  _prepare_outputs output.


(** One of the four limit blocks, as a function on the object the
    registry holds under the image's name. *)
Definition with_limit (predicted_output : gmap string Tensor)
    (reference : variable_record → option string)
    (assign : pyval → variable_record → variable_record)
    (target : variable_record) : outcome variable_record :=
  match truthy (reference target) with
  | Some r =>
      t ← subscript predicted_output r;
      x ← item t;
      Returns (assign (VNum x) target)
  | None => Returns target
  end.

(** The loop body, as a function on the object the registry holds under
    [variable.name]. *)
Definition updated_variable (predicted_output : gmap string Tensor)
    (variable target : variable_record) : outcome variable_record :=
  if decide (variable_type variable = "scalar") then
    t ← subscript predicted_output (name variable);
    x ← item t;
    Returns (set_value (VNum x) target)
  else if decide (variable_type variable = "image") then
    t ← subscript predicted_output (name variable);
    t' ← reshape t (shape variable);
    a ← numpy t';
    target ← with_limit predicted_output x_min_variable set_x_min (set_value a target);
    target ← with_limit predicted_output x_max_variable set_x_max target;
    target ← with_limit predicted_output y_min_variable set_y_min target;
    with_limit predicted_output y_max_variable set_y_max target
  else Returns target.

(** [w'] is [w] with the object registered under [k] replaced. *)
Definition stores (k : string) (target' : variable_record) (w w' : world) : Prop :=
  output_variables (self w') = dict_alter (λ _, target') k (output_variables (self w)).

(** The registry the loop of [_prepare_outputs] leaves when it returns,
    for a registry that holds every variable under its own name. *)
Fixpoint updated_registry (predicted_output : gmap string Tensor)
    (items : dict variable_record) : outcome (dict variable_record) :=
  match items with
  | [] => Returns []
  | (k, variable) :: items' =>
      variable' ← updated_variable predicted_output variable variable;
      rest ← updated_registry predicted_output items';
      Returns ((k, variable') :: rest)
  end.

(** Every variable is registered under its own name, and no name twice. *)
Definition named_registry (d : dict variable_record) : Prop :=
  NoDup (keys d) ∧ Forall (λ item, name item.2 = item.1) d.

(** How a limit of an image stands after the call: taken from the parsed
    mapping when its back-reference is set, left alone when it is not. *)
Definition limit_updated (predicted_output : gmap string Tensor)
    (reference : option string) (old new : pyval) : Prop :=
  match truthy reference with
  | Some r =>
      ∃ t x, predicted_output !! r = Some t ∧ item t = Returns x ∧ new = VNum x
  | None => new = old
  end.

(** The product of the sizes of a configured shape. *)
Definition prod_Z (shape : list Z) : Z := foldr Z.mul 1%Z shape.

(** The stage as the specification words it: the [untransform] of every
    transform of the chain, the first configured one first. *)
Fixpoint untransform_in_order (chain : list Transformer) (x : Tensor) : outcome Tensor :=
  match chain with
  | [] => Returns x
  | transformer :: chain' => y ← untransform transformer x; untransform_in_order chain' y
  end.

(** The opposite reading: the last configured transform undone first. *)
Definition untransform_reversed (chain : list Transformer) (x : Tensor) : outcome Tensor :=
  untransform_in_order (reverse chain) x.

(** The names [_arrange_inputs] iterates over: the configured feature
    order or, when none is configured, the keys of the input registry in
    insertion order. *)
Definition feature_names (s : PyTorchModel) : list string :=
  match _feature_order s with
  | Some feature_order => feature_order
  | None => keys (input_variables s)
  end.

(** The body of both loops of [_arrange_inputs]. *)
Definition append_feature (input_variables0 : gmap string Tensor)
    (features : list Tensor) (feature_name : string) : M (list Tensor) :=
  t ← lift (subscript input_variables0 feature_name);
  mret (features ++ [t]).

(** The forward stage as a function of the chain: the transforms applied
    one after the other, the first configured one first. *)
Fixpoint transform_in_order (chain : list Transformer) (x : Tensor) : outcome Tensor :=
  match chain with
  | [] => Returns x
  | transformer :: chain' => y ← transform transformer x; transform_in_order chain' y
  end.

(** [var'] is [var] with another [value]. *)
Definition same_but_value (var var' : variable_record) : Prop :=
  var' = set_value (value var') var.

(** [var'] has the name, kind, default, shape and back-references of
    [var]; its value and its limits may differ. *)
Definition same_definition (var var' : variable_record) : Prop :=
  name var' = name var
  ∧ variable_type var' = variable_type var
  ∧ default var' = default var
  ∧ shape var' = shape var
  ∧ x_min_variable var' = x_min_variable var
  ∧ x_max_variable var' = x_max_variable var
  ∧ y_min_variable var' = y_min_variable var
  ∧ y_max_variable var' = y_max_variable var.

(** Entry by entry, [d'] has the keys of [d] and holds [P]-related
    variables. *)
Definition entrywise (P : relation variable_record) (d d' : dict variable_record) : Prop :=
  Forall2 (λ item item', item'.1 = item.1 ∧ P item.2 item'.2) d d'.

(** The configuration is kept, the inputs differ in their values at
    most, the outputs in their values and limits at most. *)
Definition registries_kept (w w' : world) : Prop :=
  configuration (self w') = configuration (self w)
  ∧ entrywise same_but_value (input_variables (self w)) (input_variables (self w'))
  ∧ entrywise same_definition (output_variables (self w)) (output_variables (self w')).

(** The names [_parse_outputs] iterates over: the configured output
    order or, when none is configured, the keys of the output registry. *)
Definition output_names (s : PyTorchModel) : list string :=
  match _output_order s with
  | Some output_order => output_order
  | None => keys (output_variables s)
  end.

(** Row [idx] of the tensor [y]. *)
Definition row (y : Tensor) (idx : nat) : Tensor :=
  mkTensor (take (prod_nat (tail (tshape y))) (drop (idx * prod_nat (tail (tshape y))) (tdata y)))
           (tail (tshape y)) (tdtype y) (requires_grad y).

(** The mapping the loop of [_parse_outputs] builds over the pairs
    [items] of index and name, starting from [acc]. *)
Fixpoint parsed_from (y : Tensor) (items : list (nat * string)) (acc : gmap string Tensor)
    : outcome (gmap string Tensor) :=
  match items with
  | [] => Returns acc
  | (idx, output_name) :: items' =>
      t ← getitem y idx; parsed_from y items' (<[output_name := t]> acc)
  end.

(** The tensors [_arrange_inputs] looks up, in the order of [names]. *)
Fixpoint gathered (tensors : gmap string Tensor) (names : list string)
    : outcome (list Tensor) :=
  match names with
  | [] => Returns []
  | feature_name :: names' =>
      t ← subscript tensors feature_name;
      ts ← gathered tensors names';
      Returns (t :: ts)
  end.

(** A tensor holds as many elements as its shape says. *)
Definition well_shaped (t : Tensor) : Prop := length (tdata t) = prod_nat (tshape t).

(** The parsed mapping as a function of the adapter and of the mapping
    input preparation returns: the stages from feature arrangement to
    output parsing. *)
Definition predicted (s : PyTorchModel) (tensors : gmap string Tensor)
    : outcome (gmap string Tensor) :=
  ts ← gathered tensors (feature_names s);
  x ← torch_stack ts;
  features ← transform_in_order (_input_transformers s) x;
  raw_output ← _model s features;
  y ← untransform_in_order (_output_transformers s) raw_output;
  parsed_from y (enumerate (output_names s)) ∅.

(** The value the formatting step selects. *)
Definition selected_output (fmt : gmap string string) (predicted_output : gmap string Tensor)
    (registry : dict variable_record) : evaluate_output :=
  if decide (fmt !! "type" = Some "tensor") then Tensors predicted_output
  else if decide (fmt !! "type" = Some "variable") then Variables registry
  else Values (current_values registry).

(** The bound one limit block leaves: read from the parsed outputs when
    the image names a reference, otherwise the bound it had. *)
Definition limit_value (predicted_output : gmap string Tensor) (reference : option string)
    (old : pyval) : outcome pyval :=
  match truthy reference with
  | Some r =>
      t ← subscript predicted_output r;
      x ← item t;
      Returns (VNum x)
  | None => Returns old
  end.

(** ** Running the monad *)

Lemma bind_run {A B} (m : M A) (f : A → M B) (w : world) :
  (m ≫= f) w =
  match m w with
  | (Returns a, w') => f a w'
  | (Raises e, w') => (Raises e, w')
  end.
Proof. reflexivity. Qed.

Lemma bind_returns {A B} (m : M A) (f : A → M B) (w w' : world) (b : B) :
  (m ≫= f) w = (Returns b, w') →
  ∃ a w1, m w = (Returns a, w1) ∧ f a w1 = (Returns b, w').
Proof.
  rewrite bind_run. destruct (m w) as [[a|e] w1]; [eauto | discriminate].
Qed.

Lemma bind_lift_run {A B} (o : outcome A) (f : A → M B) (w : world) :
  (lift o ≫= f) w =
  match o with
  | Returns a => f a w
  | Raises e => (Raises e, w)
  end.
Proof. rewrite bind_run. unfold lift. by destruct o. Qed.

(** ** Computations that do not look at the output format

    [with_output_format fmt w] is the world [w] with the adapter's
    [_output_format] replaced.  A computation ignores the format when
    replacing it beforehand changes neither what the computation returns
    or raises nor what it does to the world. *)

Lemma ignores_format_ret {A} (a : A) : ignores_format (mret a : M A).
Proof. done. Qed.

Lemma ignores_format_lift {A} (o : outcome A) : ignores_format (lift o : M A).
Proof. done. Qed.

Lemma ignores_format_raise {A} (e : exn) : ignores_format (raise e : M A).
Proof. done. Qed.

Lemma ignores_format_logger_info (msg : string) : ignores_format (logger_info msg : M unit).
Proof. done. Qed.

Lemma ignores_format_bind {A B} (m : M A) (f : A → M B) :
  ignores_format m → (∀ a, ignores_format (f a)) → ignores_format (m ≫= f).
Proof.
  intros Hm Hf fmt w. rewrite !bind_run, Hm.
  destruct (m w) as [[a|e] w1]; cbn [fst snd]; [apply Hf | done].
Qed.

(** Reading [self] and using everything but its format. *)
Lemma ignores_format_get_self {A} (k : PyTorchModel → M A) :
  (∀ fmt w, k (self (with_output_format fmt w)) = k (self w)) →
  (∀ s, ignores_format (k s)) →
  ignores_format (get_self ≫= k).
Proof.
  intros Hk Hs fmt w. rewrite !bind_run. cbn [get_self].
  rewrite <- (Hs (self w) fmt w). by rewrite <- (Hk fmt w).
Qed.

Lemma ignores_format_for_each {A} (xs : list A) (body : A → M unit) :
  (∀ x, ignores_format (body x)) → ignores_format (for_each xs body).
Proof.
  intros Hbody. induction xs as [|x xs IH]; [done|].
  cbn [for_each]. apply ignores_format_bind; auto.
Qed.

Lemma ignores_format_for_fold {A B} (xs : list A) (acc : B) (body : B → A → M B) :
  (∀ acc x, ignores_format (body acc x)) → ignores_format (for_fold xs acc body).
Proof.
  intros Hbody. revert acc. induction xs as [|x xs IH]; intros acc; [done|].
  cbn [for_fold]. apply ignores_format_bind; auto.
Qed.

Lemma ignores_format_try {A} (body : M A) (handler : string → M A) :
  ignores_format body → (∀ k, ignores_format (handler k)) →
  ignores_format (try_except_KeyError body handler).
Proof.
  intros Hbody Hhandler fmt w. unfold try_except_KeyError. rewrite Hbody.
  destruct (body w) as [[a|[]] w1]; cbn [fst snd]; try done. apply Hhandler.
Qed.

Lemma ignores_format_assign_input (k : string) (v : pyval) :
  ignores_format (assign_input k v).
Proof. done. Qed.

Lemma ignores_format_output_variable (k : string) : ignores_format (output_variable k).
Proof.
  intros fmt w. unfold output_variable. rewrite !bind_run. cbn.
  by destruct (dict_get _ k).
Qed.

Lemma ignores_format_assign_output (k : string) (f : variable_record → variable_record) :
  ignores_format (assign_output k f).
Proof.
  apply ignores_format_bind; [apply ignores_format_output_variable | done].
Qed.

Create HintDb ignores_format.
#[local] Hint Resolve ignores_format_ret ignores_format_lift ignores_format_raise
  ignores_format_logger_info ignores_format_bind ignores_format_for_each
  ignores_format_for_fold ignores_format_try ignores_format_assign_input
  ignores_format_output_variable ignores_format_assign_output : ignores_format.

Ltac ignores_format_step :=
  first
    [ solve [auto 2 with ignores_format]
    | apply ignores_format_get_self; [done | intros ?]
    | apply ignores_format_bind; [| intros ?]
    | apply ignores_format_for_each; intros ?
    | apply ignores_format_for_fold; intros ? ?
    | apply ignores_format_try; [| intros ?] ].

Lemma ignores_format_resolve_input (input_variables0 : gmap string input_entry)
    (item : string * variable_record) :
  ignores_format (resolve_input input_variables0 item).
Proof. destruct item as [var_name var]. unfold resolve_input. repeat ignores_format_step. Qed.

Lemma ignores_format_as_tensor (acc : gmap string Tensor) (item : string * variable_record) :
  ignores_format (as_tensor acc item).
Proof.
  destruct item as [var_name var]. unfold as_tensor.
  destruct (value var); cbn [is_tensor]; repeat ignores_format_step.
Qed.

Lemma ignores_format_prepare_inputs (input_variables0 : gmap string input_entry) :
  ignores_format (_prepare_inputs input_variables0).
Proof.
  unfold _prepare_inputs, resolve_inputs, as_tensors.
  repeat ignores_format_step;
    auto using ignores_format_resolve_input, ignores_format_as_tensor.
Qed.

Lemma ignores_format_arrange_inputs (input_variables0 : gmap string Tensor) :
  ignores_format (_arrange_inputs input_variables0).
Proof.
  unfold _arrange_inputs. apply ignores_format_get_self; [done|]. intros s.
  destruct (_feature_order s); repeat ignores_format_step.
Qed.

Lemma ignores_format_transform_inputs (input_values : Tensor) :
  ignores_format (_transform_inputs input_values).
Proof. unfold _transform_inputs. repeat ignores_format_step. Qed.

Lemma ignores_format_transform_outputs (model_output : Tensor) :
  ignores_format (_transform_outputs model_output).
Proof. unfold _transform_outputs. repeat ignores_format_step. Qed.

Lemma ignores_format_parse_outputs (model_output : Tensor) :
  ignores_format (_parse_outputs model_output).
Proof.
  unfold _parse_outputs. apply ignores_format_get_self; [done|]. intros s.
  destruct (_output_order s); apply ignores_format_for_fold; intros output [idx output_name];
    repeat ignores_format_step.
Qed.

Lemma ignores_format_update_limit (predicted_output : gmap string Tensor) (k : string)
    (reference : variable_record → option string)
    (assign : pyval → variable_record → variable_record) :
  ignores_format (update_limit predicted_output k reference assign).
Proof.
  unfold update_limit. ignores_format_step; [auto with ignores_format|].
  destruct (truthy _); repeat ignores_format_step.
Qed.

#[local] Hint Resolve ignores_format_resolve_input ignores_format_as_tensor
  ignores_format_update_limit : ignores_format.

Lemma ignores_format_update_output (predicted_output : gmap string Tensor)
    (variable : variable_record) :
  ignores_format (update_output predicted_output variable).
Proof.
  unfold update_output. repeat case_decide; repeat ignores_format_step.
Qed.

Lemma ignores_format_update_outputs (predicted_output : gmap string Tensor) :
  ignores_format (update_outputs predicted_output).
Proof.
  unfold update_outputs. repeat ignores_format_step.
  apply ignores_format_update_output.
Qed.

#[local] Hint Resolve ignores_format_prepare_inputs ignores_format_arrange_inputs
  ignores_format_transform_inputs ignores_format_transform_outputs
  ignores_format_parse_outputs ignores_format_update_outputs : ignores_format.

(** ** What a computation leaves alone

    [within R m]: whatever [m] does, and whether it returns or raises, the
    world it leaves is [R]-related to the one it started in. *)

Section within.
Context (R : relation world) `{!PreOrder R}.

Lemma within_ret {A} (a : A) : within R (mret a : M A).
Proof. intros w. reflexivity. Qed.

Lemma within_lift {A} (o : outcome A) : within R (lift o : M A).
Proof. intros w. reflexivity. Qed.

Lemma within_raise {A} (e : exn) : within R (raise e : M A).
Proof. intros w. reflexivity. Qed.

Lemma within_get_self : within R get_self.
Proof. intros w. reflexivity. Qed.

Lemma within_bind {A B} (m : M A) (f : A → M B) :
  within R m → (∀ a, within R (f a)) → within R (m ≫= f).
Proof.
  intros Hm Hf w. rewrite bind_run. specialize (Hm w).
  destruct (m w) as [[a|e] w1]; cbn [snd] in *; [|done].
  etrans; [exact Hm | apply Hf].
Qed.

Lemma within_for_each {A} (xs : list A) (body : A → M unit) :
  (∀ x, within R (body x)) → within R (for_each xs body).
Proof.
  intros Hbody. induction xs as [|x xs IH]; [apply within_ret|].
  cbn [for_each]. apply within_bind; auto.
Qed.

Lemma within_for_fold {A B} (xs : list A) (acc : B) (body : B → A → M B) :
  (∀ acc x, within R (body acc x)) → within R (for_fold xs acc body).
Proof.
  intros Hbody. revert acc. induction xs as [|x xs IH]; intros acc; [apply within_ret|].
  cbn [for_fold]. apply within_bind; auto.
Qed.

Lemma within_try {A} (body : M A) (handler : string → M A) :
  within R body → (∀ k, within R (handler k)) →
  within R (try_except_KeyError body handler).
Proof.
  intros Hbody Hhandler w. unfold try_except_KeyError. specialize (Hbody w).
  destruct (body w) as [[a|[]] w1]; cbn [snd] in *; try done.
  etrans; [exact Hbody | apply Hhandler].
Qed.

End within.

#[local] Instance inputs_frame_preorder : PreOrder inputs_frame.
Proof.
  split; [done|]. intros w1 w2 w3 [? ?] [? ?]. split; congruence.
Qed.

#[local] Instance outputs_frame_preorder : PreOrder outputs_frame.
Proof.
  split; [done|]. intros w1 w2 w3 (? & ? & ?) (? & ? & ?). split_and!; congruence.
Qed.

Create HintDb within.

Ltac within_step :=
  first
    [ solve [ apply within_ret; typeclasses eauto
            | apply within_lift; typeclasses eauto
            | apply within_raise; typeclasses eauto
            | apply within_get_self; typeclasses eauto
            | auto 1 with within nocore ]
    | apply within_bind; [typeclasses eauto | | intros ?]
    | apply within_for_each; [typeclasses eauto | intros ?]
    | apply within_for_fold; [typeclasses eauto | intros ? ?]
    | apply within_try; [typeclasses eauto | | intros ?] ].

Lemma within_assign_input (k : string) (v : pyval) : within inputs_frame (assign_input k v).
Proof. done. Qed.

Lemma within_logger_info (msg : string) : within inputs_frame (logger_info msg).
Proof. done. Qed.

#[local] Hint Resolve within_assign_input within_logger_info : within.

Lemma within_resolve_input (input_variables0 : gmap string input_entry)
    (item : string * variable_record) :
  within inputs_frame (resolve_input input_variables0 item).
Proof.
  destruct item as [var_name var]. unfold resolve_input. repeat within_step.
Qed.

Lemma within_as_tensor (acc : gmap string Tensor) (item : string * variable_record) :
  within inputs_frame (as_tensor acc item).
Proof.
  destruct item as [var_name var]. unfold as_tensor.
  destruct (value var); cbn [is_tensor]; repeat within_step.
Qed.

#[local] Hint Resolve within_resolve_input within_as_tensor : within.

Lemma within_prepare_inputs (input_variables0 : gmap string input_entry) :
  within inputs_frame (_prepare_inputs input_variables0).
Proof. unfold _prepare_inputs, resolve_inputs, as_tensors. repeat within_step. Qed.

(** The stages between input preparation and output preparation change
    nothing at all. *)
Lemma arrange_inputs_world (input_variables0 : gmap string Tensor) :
  within eq (_arrange_inputs input_variables0).
Proof.
  unfold _arrange_inputs. apply within_bind; [apply _ | apply within_get_self; apply _ |].
  intros s. destruct (_feature_order s); repeat within_step.
Qed.

Lemma transform_inputs_world (input_values : Tensor) :
  within eq (_transform_inputs input_values).
Proof. unfold _transform_inputs. repeat within_step. Qed.

Lemma transform_outputs_world (model_output : Tensor) :
  within eq (_transform_outputs model_output).
Proof. unfold _transform_outputs. repeat within_step. Qed.

Lemma parse_outputs_world (model_output : Tensor) :
  within eq (_parse_outputs model_output).
Proof.
  unfold _parse_outputs. apply within_bind; [apply _ | apply within_get_self; apply _ |].
  intros s. destruct (_output_order s);
    (apply within_for_fold; [apply _|]; intros output [idx output_name]);
    repeat within_step.
Qed.

Lemma within_eq_weaken (R : relation world) `{!Reflexive R} {A} (m : M A) :
  within eq m → within R m.
Proof. intros Hm w. by rewrite <- (Hm w). Qed.

Lemma within_output_variable (k : string) : within outputs_frame (output_variable k).
Proof.
  intros w. unfold output_variable. rewrite bind_run. cbn [get_self].
  by destruct (dict_get _ k).
Qed.

Lemma within_assign_output (k : string) (f : variable_record → variable_record) :
  within outputs_frame (assign_output k f).
Proof.
  unfold assign_output. apply within_bind; [apply _ | apply within_output_variable | done].
Qed.

#[local] Hint Resolve within_output_variable within_assign_output : within.

Lemma within_update_limit (predicted_output : gmap string Tensor) (k : string)
    (reference : variable_record → option string)
    (assign : pyval → variable_record → variable_record) :
  within outputs_frame (update_limit predicted_output k reference assign).
Proof.
  unfold update_limit. within_step; [within_step|].
  destruct (truthy _); repeat within_step.
Qed.

#[local] Hint Resolve within_update_limit : within.

Lemma within_update_output (predicted_output : gmap string Tensor)
    (variable : variable_record) :
  within outputs_frame (update_output predicted_output variable).
Proof. unfold update_output. repeat case_decide; repeat within_step. Qed.

#[local] Hint Resolve within_update_output : within.

Lemma within_update_outputs (predicted_output : gmap string Tensor) :
  within outputs_frame (update_outputs predicted_output).
Proof. unfold update_outputs. repeat within_step. Qed.

Lemma evaluate_run (input_variables0 : gmap string input_entry) (w : world) :
  evaluate input_variables0 w
  = (parsed_outputs input_variables0 ≫= _prepare_outputs) w.
Proof.
  unfold evaluate, parsed_outputs. rewrite !bind_run.
  destruct (_prepare_inputs _ w) as [[x1|e] w1]; [|done]. rewrite !bind_run.
  destruct (_arrange_inputs _ w1) as [[x2|e] w2]; [|done]. rewrite !bind_run.
  destruct (_transform_inputs _ w2) as [[x3|e] w3]; [|done]. rewrite !bind_run.
  cbn [get_self lift].
  destruct (_model (self w3) x3) as [x4|e]; [|done]. rewrite !bind_run.
  by destruct (_transform_outputs _ w3) as [[x5|e] w5].
Qed.

Lemma ignores_format_parsed_outputs (input_variables0 : gmap string input_entry) :
  ignores_format (parsed_outputs input_variables0).
Proof.
  unfold parsed_outputs. repeat ignores_format_step.
Qed.

Lemma within_parsed_outputs (input_variables0 : gmap string input_entry) :
  within inputs_frame (parsed_outputs input_variables0).
Proof.
  pose proof within_prepare_inputs.
  pose proof (λ x, within_eq_weaken inputs_frame _ (arrange_inputs_world x)).
  pose proof (λ x, within_eq_weaken inputs_frame _ (transform_inputs_world x)).
  pose proof (λ x, within_eq_weaken inputs_frame _ (transform_outputs_world x)).
  pose proof (λ x, within_eq_weaken inputs_frame _ (parse_outputs_world x)).
  unfold parsed_outputs.
  repeat first [ done | within_step ].
Qed.

(** ** Computations that do not look at the logger *)

Lemma bind_assoc_run {A B C} (m : M A) (f : A → M B) (g : B → M C) (w : world) :
  ((m ≫= f) ≫= g) w = (m ≫= λ a, f a ≫= g) w.
Proof. rewrite !bind_run. by destruct (m w) as [[a|e] w1]. Qed.

Lemma agree_ret {A} (a : A) : agree (mret a : M A) (mret a).
Proof. by intros w1 w2 Hs. Qed.

Lemma agree_lift {A} (o : outcome A) : agree (lift o : M A) (lift o).
Proof. by intros w1 w2 Hs. Qed.

Lemma agree_raise {A} (e : exn) : agree (raise e : M A) (raise e).
Proof. by intros w1 w2 Hs. Qed.

Lemma agree_modify_self (f : PyTorchModel → PyTorchModel) :
  agree (modify_self f) (modify_self f).
Proof. intros w1 w2 Hs. cbn. by rewrite Hs. Qed.

Lemma agree_bind {A B} (m1 m2 : M A) (f1 f2 : A → M B) :
  agree m1 m2 → (∀ a, agree (f1 a) (f2 a)) → agree (m1 ≫= f1) (m2 ≫= f2).
Proof.
  intros Hm Hf w1 w2 Hs. rewrite !bind_run. destruct (Hm w1 w2 Hs) as [Hfst Hsnd].
  destruct (m1 w1) as [[a|e] w1'], (m2 w2) as [[b|e'] w2']; cbn [fst snd] in *;
    try discriminate.
  - injection Hfst as <-. by apply Hf.
  - by injection Hfst as <-.
Qed.

Lemma agree_get_self {A} (k1 k2 : PyTorchModel → M A) :
  (∀ s, agree (k1 s) (k2 s)) → agree (get_self ≫= k1) (get_self ≫= k2).
Proof.
  intros Hk w1 w2 Hs. rewrite !bind_run. cbn [get_self]. rewrite Hs. by apply Hk.
Qed.

Lemma agree_for_each {A} (xs : list A) (body1 body2 : A → M unit) :
  (∀ x, x ∈ xs → agree (body1 x) (body2 x)) →
  agree (for_each xs body1) (for_each xs body2).
Proof.
  induction xs as [|x xs IH]; intros Hbody; [apply agree_ret|].
  cbn [for_each]. apply agree_bind.
  - apply Hbody, list_elem_of_here.
  - intros _. apply IH. intros x' Hx'. by apply Hbody, list_elem_of_further.
Qed.

Lemma agree_for_fold {A B} (xs : list A) (acc : B) (body : B → A → M B) :
  (∀ acc x, agree (body acc x) (body acc x)) →
  agree (for_fold xs acc body) (for_fold xs acc body).
Proof.
  intros Hbody. revert acc. induction xs as [|x xs IH]; intros acc; [apply agree_ret|].
  cbn [for_fold]. apply agree_bind; auto.
Qed.

Create HintDb agree.
#[local] Hint Resolve agree_ret agree_lift agree_raise agree_modify_self : agree.

Ltac agree_step :=
  first
    [ solve [auto 1 with agree nocore]
    | apply agree_get_self; intros ?
    | apply agree_bind; [| intros ?]
    | apply agree_for_each; intros ? _
    | apply agree_for_fold; intros ? ? ].

Lemma agree_as_tensor (acc : gmap string Tensor) (item : string * variable_record) :
  agree (as_tensor acc item) (as_tensor acc item).
Proof.
  destruct item as [var_name var]. unfold as_tensor.
  destruct (value var); cbn [is_tensor]; repeat agree_step.
Qed.

Lemma agree_output_variable (k : string) : agree (output_variable k) (output_variable k).
Proof.
  unfold output_variable. apply agree_get_self. intros s.
  destruct (dict_get _ k); auto with agree.
Qed.

#[local] Hint Resolve agree_as_tensor agree_output_variable : agree.

Lemma agree_assign_output (k : string) (f : variable_record → variable_record) :
  agree (assign_output k f) (assign_output k f).
Proof. unfold assign_output. repeat agree_step. Qed.

#[local] Hint Resolve agree_assign_output : agree.

Lemma agree_update_limit (predicted_output : gmap string Tensor) (k : string)
    (reference : variable_record → option string)
    (assign : pyval → variable_record → variable_record) :
  agree (update_limit predicted_output k reference assign)
        (update_limit predicted_output k reference assign).
Proof.
  unfold update_limit. apply agree_bind; [auto with agree|]. intros var.
  destruct (truthy _); repeat agree_step.
Qed.

#[local] Hint Resolve agree_update_limit : agree.

Lemma agree_update_output (predicted_output : gmap string Tensor)
    (variable : variable_record) :
  agree (update_output predicted_output variable) (update_output predicted_output variable).
Proof. unfold update_output. repeat case_decide; repeat agree_step. Qed.

#[local] Hint Resolve agree_update_output : agree.



(** ** The shape of a successful call *)

Lemma format_outputs_run (predicted_output : gmap string Tensor) (w : world) :
  format_outputs predicted_output w
  = (Returns
       (if decide (_output_format (self w) !! "type" = Some "tensor")
        then Tensors predicted_output
        else if decide (_output_format (self w) !! "type" = Some "variable")
        then Variables (output_variables (self w))
        else Values (current_values (output_variables (self w)))),
     w).
Proof.
  unfold format_outputs. rewrite bind_run. cbn [get_self].
  by repeat case_decide.
Qed.

Lemma prepare_outputs_run (predicted_output : gmap string Tensor) (w : world) :
  _prepare_outputs predicted_output w
  = match update_outputs predicted_output w with
    | (Returns _, w') => format_outputs predicted_output w'
    | (Raises e, w') => (Raises e, w')
    end.
Proof. unfold _prepare_outputs. by rewrite bind_run. Qed.

Lemma update_outputs_format (predicted_output : gmap string Tensor) (w : world) :
  _output_format (self (snd (update_outputs predicted_output w))) = _output_format (self w).
Proof.
  destruct (within_update_outputs predicted_output w) as [Hconf _].
  unfold configuration in Hconf. congruence.
Qed.

Lemma parsed_outputs_format (input_variables0 : gmap string input_entry) (w : world) :
  _output_format (self (snd (parsed_outputs input_variables0 w))) = _output_format (self w).
Proof.
  destruct (within_parsed_outputs input_variables0 w) as [Hconf _].
  unfold configuration in Hconf. congruence.
Qed.

(** What [evaluate] does, in three steps: the six stages up to the parsed
    mapping, the update of the output registry, the choice of the value
    to return. *)
Lemma evaluate_stages (input_variables0 : gmap string input_entry) (w : world) :
  evaluate input_variables0 w
  = match parsed_outputs input_variables0 w with
    | (Returns predicted_output, w1) =>
        match update_outputs predicted_output w1 with
        | (Returns _, w2) => format_outputs predicted_output w2
        | (Raises e, w2) => (Raises e, w2)
        end
    | (Raises e, w1) => (Raises e, w1)
    end.
Proof.
  rewrite evaluate_run, bind_run.
  destruct (parsed_outputs _ w) as [[p|e] w1]; [|done]. apply prepare_outputs_run.
Qed.

Lemma evaluate_returns (input_variables0 : gmap string input_entry)
    (w w' : world) (out : evaluate_output) :
  evaluate input_variables0 w = (Returns out, w') →
  ∃ predicted_output w1,
    parsed_outputs input_variables0 w = (Returns predicted_output, w1)
    ∧ update_outputs predicted_output w1 = (Returns (), w')
    ∧ format_outputs predicted_output w' = (Returns out, w')
    ∧ _output_format (self w') = _output_format (self w).
Proof.
  rewrite evaluate_stages.
  pose proof (parsed_outputs_format input_variables0 w) as Hfmt1.
  destruct (parsed_outputs _ w) as [[p|e] w1]; [|discriminate].
  pose proof (update_outputs_format p w1) as Hfmt2.
  destruct (update_outputs p w1) as [[[]|e] w2] eqn:Hupdate; [|discriminate].
  cbn [snd] in *. intros Hfmt.
  assert (w2 = w') as ->.
  { rewrite format_outputs_run in Hfmt. congruence. }
  exists p, w1. split_and!; [done..|congruence].
Qed.

(** C2. A successful [evaluate] returns what the [type] entry of the
    output format selects: for ["tensor"] the mapping produced by the
    parsing stage, for ["variable"] the output registry as the call left
    it, and for anything else the mapping from each output name to the
    current value of its variable. *)
Theorem evaluate_dispatches_on_output_format (input_variables0 : gmap string input_entry)
    (w w' : world) (out : evaluate_output) :
  evaluate input_variables0 w = (Returns out, w') →
  ∃ predicted_output w1,
    parsed_outputs input_variables0 w = (Returns predicted_output, w1)
    ∧ (_output_format (self w) !! "type" = Some "tensor" →
       out = Tensors predicted_output)
    ∧ (_output_format (self w) !! "type" = Some "variable" →
       out = Variables (output_variables (self w')))
    ∧ (_output_format (self w) !! "type" ≠ Some "tensor" →
       _output_format (self w) !! "type" ≠ Some "variable" →
       out = Values ((λ '(key, var), (key, value var)) <$> output_variables (self w'))).
Proof.
  intros (p & w1 & Hparsed & _ & Hfmt & Hsame)%evaluate_returns.
  exists p, w1. split; [done|].
  rewrite format_outputs_run, Hsame in Hfmt. injection Hfmt as <-.
  split_and!; intros; repeat case_decide; first [done | congruence].
Qed.

(** C10. When the output format has no ["type"] key, the value of
    [_output_format.get("type")] matches neither ["tensor"] nor
    ["variable"]: the formatting step raises nothing, and [evaluate]
    returns the plain mapping of each output name to the current value
    of its variable whenever the stages before the formatting return. *)
Theorem evaluate_without_type_key (input_variables0 : gmap string input_entry) (w : world) :
  _output_format (self w) !! "type" = None →
  evaluate input_variables0 w
  = match parsed_outputs input_variables0 w with
    | (Returns predicted_output, w1) =>
        match update_outputs predicted_output w1 with
        | (Returns _, w2) =>
            (Returns (Values ((λ '(key, var), (key, value var)) <$> output_variables (self w2))),
             w2)
        | (Raises e, w2) => (Raises e, w2)
        end
    | (Raises e, w1) => (Raises e, w1)
    end.
Proof.
  intros Hnone. rewrite evaluate_stages.
  pose proof (parsed_outputs_format input_variables0 w) as Hfmt1.
  destruct (parsed_outputs _ w) as [[p|e] w1]; [|done].
  pose proof (update_outputs_format p w1) as Hfmt2.
  destruct (update_outputs p w1) as [[[]|e] w2]; [|done].
  cbn [snd] in *. rewrite format_outputs_run, Hfmt2, Hfmt1, Hnone.
  by repeat case_decide.
Qed.

(** ** Input normalization *)

Section dict.
Context {V : Type}.
Implicit Types (d : dict V) (k : string) (f : V → V).

Lemma keys_dict_alter f k d : keys (dict_alter f k d) = keys d.
Proof.
  induction d as [|[k' v] d IH]; [done|]. cbn [dict_alter].
  case_decide; [done|]. unfold keys in *. cbn. by rewrite IH.
Qed.

Lemma keys_app_single d1 d2 k v v' :
  keys ((d1 ++ [(k, v)]) ++ d2) = keys ((d1 ++ [(k, v')]) ++ d2).
Proof. unfold keys. by rewrite !fmap_app. Qed.

Lemma dict_alter_app_fresh f k d1 d2 :
  k ∉ keys d1 → dict_alter f k (d1 ++ d2) = d1 ++ dict_alter f k d2.
Proof.
  induction d1 as [|[k' v] d1 IH]; [done|]. unfold keys. cbn.
  intros Hk%not_elem_of_cons. destruct Hk as [Hne Hk].
  case_decide; [congruence|]. by rewrite IH.
Qed.


Lemma dict_get_elem_of d k v :
  NoDup (keys d) → (k, v) ∈ d → dict_get d k = Some v.
Proof.
  induction d as [|[k' v'] d IH]; intros Hnodup Hin.
  { by apply elem_of_nil in Hin. }
  unfold keys in Hnodup. cbn in Hnodup. apply NoDup_cons in Hnodup as [Hfresh Hnodup].
  cbn [dict_get]. apply elem_of_cons in Hin as [[= -> ->]|Hin].
  - by case_decide.
  - case_decide as Hk; [|by apply IH]. subst k'.
    exfalso. apply Hfresh. apply list_elem_of_fmap. by exists (k, v).
Qed.

Lemma dict_get_alter f k k' d :
  dict_get (dict_alter f k d) k'
  = if decide (k = k') then f <$> dict_get d k' else dict_get d k'.
Proof.
  induction d as [|[k0 v] d IH]; [by case_decide|]. cbn [dict_alter dict_get].
  repeat (case_decide; cbn [dict_get fmap option_fmap option_map]); subst;
    try congruence.
  all: rewrite IH; by case_decide.
Qed.

Lemma dict_alter_alter f g k d :
  dict_alter f k (dict_alter g k d) = dict_alter (f ∘ g) k d.
Proof.
  induction d as [|[k' v] d IH]; [done|]. cbn [dict_alter].
  case_decide; cbn [dict_alter]; case_decide; try done. by rewrite IH.
Qed.

Lemma dict_alter_ext f g k d v :
  dict_get d k = Some v → f v = g v → dict_alter f k d = dict_alter g k d.
Proof.
  induction d as [|[k' v'] d IH]; [done|]. cbn [dict_alter dict_get].
  case_decide; [by intros [= ->] ->|]. intros. by rewrite IH.
Qed.

Lemma dict_get_app_fresh d1 d2 k :
  k ∉ keys d1 → dict_get (d1 ++ d2) k = dict_get d2 k.
Proof.
  induction d1 as [|[k' v] d1 IH]; [done|]. unfold keys. cbn.
  intros [Hne Hk]%not_elem_of_cons. case_decide; [congruence|]. by apply IH.
Qed.

End dict.

Lemma entry_value_not_KeyError (e : input_entry) (k : string) :
  entry_value e ≠ Raises (KeyError k).
Proof.
  destruct e as [var|x|t|n|]; cbn; try done.
  unfold item. by destruct (tdata t) as [|? [|? ?]].
Qed.

Lemma resolve_input_run (input_variables0 : gmap string input_entry)
    (var_name : string) (var : variable_record) (w : world) :
  resolve_input input_variables0 (var_name, var) w
  = match input_variables0 !! var_name with
    | Some e =>
        match entry_value e with
        | Returns v =>
            (Returns (),
             mkWorld (with_input_variables
                        (dict_alter (set_value v) var_name (input_variables (self w))) (self w))
                     (logger w))
        | Raises err => (Raises err, w)
        end
    | None =>
        (Returns (),
         mkWorld (with_input_variables
                    (dict_alter (set_value (default var)) var_name (input_variables (self w)))
                    (self w))
                 (logger w ++ [missing_record var_name]))
    end.
Proof.
  unfold resolve_input, try_except_KeyError. rewrite bind_lift_run. unfold subscript.
  destruct (input_variables0 !! var_name) as [e|]; [|done].
  rewrite bind_lift_run. pose proof (entry_value_not_KeyError e) as Hne.
  destruct (entry_value e) as [v|[]]; try done. by destruct (Hne key).
Qed.

Lemma resolved_registry_returns (input_variables0 : gmap string input_entry)
    (items items' : dict variable_record) :
  resolved_registry input_variables0 items = Returns items' →
  Forall2 (λ item item',
             item'.1 = item.1
             ∧ ∃ v, resolved_value input_variables0 item.1 item.2 = Returns v
                    ∧ item'.2 = set_value v item.2) items items'.
Proof.
  revert items'. induction items as [|[k var] items IH]; intros items'.
  { intros [= <-]. constructor. }
  cbn [resolved_registry].
  destruct (resolved_value input_variables0 k var) as [v|e] eqn:Hv; [|discriminate].
  cbn. destruct (resolved_registry input_variables0 items) as [rest|e]; [|discriminate].
  cbn. intros [= <-]. constructor; [|by apply IH]. cbn. eauto.
Qed.

Lemma resolved_registry_keys (input_variables0 : gmap string input_entry)
    (items items' : dict variable_record) :
  resolved_registry input_variables0 items = Returns items' → keys items' = keys items.
Proof.
  intros Hall%resolved_registry_returns. unfold keys.
  induction Hall as [|[k var] [k' var'] items items' [Hk _] _ IH]; [done|].
  cbn in *. by rewrite Hk, IH.
Qed.


Lemma resolve_inputs_loop (input_variables0 : gmap string input_entry)
    (items done : dict variable_record) (w : world) :
  input_variables (self w) = done ++ items →
  NoDup (keys (done ++ items)) →
  match resolved_registry input_variables0 items with
  | Returns items' =>
      for_each items (resolve_input input_variables0) w
      = (Returns (),
         mkWorld (with_input_variables (done ++ items') (self w))
                 (logger w ++ missing_records input_variables0 items))
  | Raises e =>
      ∃ w', for_each items (resolve_input input_variables0) w = (Raises e, w')
  end.
Proof.
  revert done w. induction items as [|[k var] items IH]; intros done w Hreg Hnodup.
  { cbn. rewrite <- Hreg, (app_nil_r (logger w)). by destruct w as [[] ?]. }
  cbn [resolved_registry for_each]. rewrite bind_run, resolve_input_run.
  assert (k ∉ keys done) as Hfresh.
  { unfold keys in *. rewrite fmap_app in Hnodup. apply NoDup_app in Hnodup as (_ & Hdisj & _).
    intros Hin. apply (Hdisj k Hin). cbn. apply elem_of_cons. by left. }
  assert (∀ v, dict_alter (set_value v) k (input_variables (self w))
               = (done ++ [(k, set_value v var)]) ++ items) as Halter.
  { intros v. rewrite Hreg, dict_alter_app_fresh by done. cbn [dict_alter].
    case_decide; [|done]. by rewrite <- app_assoc. }
  assert (∀ var', NoDup (keys ((done ++ [(k, var')]) ++ items))) as Hnodup'.
  { intros var'. by rewrite (keys_app_single done items k var' var), <- app_assoc. }
  unfold resolved_value, missing_records. cbn [keys fmap list_fmap omap list_omap].
  destruct (input_variables0 !! k) as [e|] eqn:Hk.
  - destruct (entry_value e) as [v|err]; [|by eexists]. cbn.
    set (w1 := mkWorld _ _).
    specialize (IH (done ++ [(k, set_value v var)]) w1 (Halter v) (Hnodup' _)).
    destruct (resolved_registry input_variables0 items) as [rest|err]; [|exact IH].
    cbn. rewrite IH. subst w1. unfold with_input_variables. cbn. rewrite Hk.
    by rewrite <- app_assoc.
  - cbn. set (w1 := mkWorld _ _).
    specialize (IH (done ++ [(k, set_value (default var) var)]) w1 (Halter _) (Hnodup' _)).
    destruct (resolved_registry input_variables0 items) as [rest|err]; [|exact IH].
    cbn. rewrite IH. subst w1. unfold with_input_variables. cbn. rewrite Hk.
    by rewrite <- !app_assoc.
Qed.

Lemma as_tensor_run (acc : gmap string Tensor) (var_name : string)
    (var : variable_record) (w : world) :
  as_tensor acc (var_name, var) w
  = ((λ t, <[var_name := t]> acc) <$> coerced (value var), w).
Proof.
  unfold as_tensor, coerced.
  destruct (value var) as [|x|t|elems dims]; cbn [is_tensor]; try done.
Qed.

Lemma as_tensors_loop (items : dict variable_record) (acc : gmap string Tensor) (w : world) :
  for_fold items acc as_tensor w = (tensors_from acc items, w).
Proof.
  revert acc. induction items as [|[k var] items IH]; intros acc; [done|].
  cbn [for_fold tensors_from]. rewrite bind_run, as_tensor_run.
  destruct (coerced (value var)) as [t|e]; cbn; [apply IH | done].
Qed.

Lemma tensors_from_lookup (items : dict variable_record)
    (acc tensors : gmap string Tensor) :
  NoDup (keys items) →
  tensors_from acc items = Returns tensors →
  (∀ k, k ∉ keys items → tensors !! k = acc !! k)
  ∧ (∀ k var, (k, var) ∈ items →
       ∃ t, coerced (value var) = Returns t ∧ tensors !! k = Some t).
Proof.
  revert acc. induction items as [|[k0 var0] items IH]; intros acc Hnodup.
  { intros [= <-]. split; [done|]. intros k var Hin. by apply elem_of_nil in Hin. }
  unfold keys in Hnodup. cbn in Hnodup. apply NoDup_cons in Hnodup as [Hfresh Hnodup].
  cbn [tensors_from]. destruct (coerced (value var0)) as [t0|e] eqn:Ht0; [|discriminate].
  cbn. intros Hrest. destruct (IH _ Hnodup Hrest) as [Hout Hin]. split.
  - intros k Hk. unfold keys in Hk. cbn in Hk. apply not_elem_of_cons in Hk as [Hne Hk].
    rewrite (Hout k Hk). by rewrite lookup_insert_ne.
  - intros k var [[= -> ->]|Hmem]%elem_of_cons.
    + exists t0. split; [done|]. rewrite (Hout k0 Hfresh). by rewrite lookup_insert_eq.
    + by apply Hin.
Qed.



(** [_prepare_inputs] on a registry with distinct keys: the registry and
    the log the first loop leaves, and the mapping the second builds. *)
Lemma prepare_inputs_run (input_variables0 : gmap string input_entry) (w : world) :
  NoDup (keys (input_variables (self w))) →
  match resolved_registry input_variables0 (input_variables (self w)) with
  | Returns registry =>
      _prepare_inputs input_variables0 w
      = (tensors_from ∅ registry,
         mkWorld (with_input_variables registry (self w))
                 (logger w ++ missing_records input_variables0 (input_variables (self w))))
  | Raises e => ∃ w', _prepare_inputs input_variables0 w = (Raises e, w')
  end.
Proof.
  intros Hnodup.
  pose proof (resolve_inputs_loop input_variables0 (input_variables (self w)) [] w
                eq_refl Hnodup) as Hloop.
  unfold _prepare_inputs, resolve_inputs, as_tensors. rewrite !bind_run. cbn [get_self].
  destruct (resolved_registry _ _) as [registry|e].
  - rewrite Hloop, bind_run. cbn [get_self self input_variables with_input_variables].
    apply as_tensors_loop.
  - destruct Hloop as [w' ->]. by eexists.
Qed.

Lemma prepare_inputs_returns (input_variables0 : gmap string input_entry)
    (w w' : world) (tensors : gmap string Tensor) :
  NoDup (keys (input_variables (self w))) →
  _prepare_inputs input_variables0 w = (Returns tensors, w') →
  ∃ registry,
    resolved_registry input_variables0 (input_variables (self w)) = Returns registry
    ∧ tensors_from ∅ registry = Returns tensors
    ∧ w' = mkWorld (with_input_variables registry (self w))
                   (logger w ++ missing_records input_variables0 (input_variables (self w))).
Proof.
  intros Hnodup Hrun. pose proof (prepare_inputs_run input_variables0 w Hnodup) as Hspec.
  destruct (resolved_registry _ _) as [registry|e].
  - exists registry. rewrite Hspec in Hrun. by injection Hrun as -> <-.
  - destruct Hspec as [w1 Hspec]. congruence.
Qed.

Lemma resolved_registry_entry (input_variables0 : gmap string input_entry)
    (items registry : dict variable_record) (k : string) (var : variable_record) :
  resolved_registry input_variables0 items = Returns registry →
  NoDup (keys items) →
  (k, var) ∈ items →
  ∃ v, resolved_value input_variables0 k var = Returns v
       ∧ dict_get registry k = Some (set_value v var).
Proof.
  intros Hreg Hnodup Hin.
  pose proof (resolved_registry_keys _ _ _ Hreg) as Hkeys.
  apply resolved_registry_returns in Hreg.
  apply list_elem_of_lookup in Hin as [i Hi].
  destruct (Forall2_lookup_l _ _ _ _ _ Hreg Hi) as ([k' var'] & Hi' & Hk & v & Hv & Hvar).
  cbn in *. subst k' var'. exists v. split; [done|].
  apply dict_get_elem_of; [by rewrite Hkeys|]. apply list_elem_of_lookup. eauto.
Qed.


Lemma for_each_app {A} (xs ys : list A) (body : A → M unit) (w : world) :
  for_each (xs ++ ys) body w = (for_each xs body ≫= λ _, for_each ys body) w.
Proof.
  revert w. induction xs as [|x xs IH]; intros w; [done|].
  cbn [app for_each]. rewrite bind_assoc_run, !bind_run.
  destruct (body x w) as [[[]|e] w1]; [apply IH | done].
Qed.

Lemma resolve_inputs_segment (input_variables0 : gmap string input_entry)
    (items items' done rest : dict variable_record) (w : world) :
  input_variables (self w) = done ++ items ++ rest →
  NoDup (keys (done ++ items ++ rest)) →
  resolved_registry input_variables0 items = Returns items' →
  for_each items (resolve_input input_variables0) w
  = (Returns (),
     mkWorld (with_input_variables (done ++ items' ++ rest) (self w))
             (logger w ++ missing_records input_variables0 items)).
Proof.
  revert items' done w. induction items as [|[k var] items IH];
    intros items' done w Hreg Hnodup Hitems.
  { injection Hitems as <-. cbn in Hreg |- *. rewrite <- Hreg, (app_nil_r (logger w)).
    by destruct w as [[] ?]. }
  cbn [resolved_registry] in Hitems.
  destruct (resolved_value input_variables0 k var) as [v|err] eqn:Hv; [|done].
  cbn in Hitems.
  destruct (resolved_registry input_variables0 items) as [tail|err] eqn:Htail; [|done].
  injection Hitems as <-.
  assert (k ∉ keys done) as Hfresh.
  { unfold keys in *. rewrite fmap_app in Hnodup. apply NoDup_app in Hnodup as (_ & Hdisj & _).
    intros Hin. apply (Hdisj k Hin). cbn. apply elem_of_cons. by left. }
  assert (dict_alter (set_value v) k (input_variables (self w))
          = (done ++ [(k, set_value v var)]) ++ items ++ rest) as Halter.
  { rewrite Hreg, dict_alter_app_fresh by done. cbn [app dict_alter].
    case_decide; [|done]. by rewrite <- app_assoc. }
  assert (NoDup (keys ((done ++ [(k, set_value v var)]) ++ items ++ rest))) as Hnodup'.
  { rewrite (keys_app_single done (items ++ rest) k _ var), <- app_assoc. done. }
  cbn [for_each]. rewrite bind_run, resolve_input_run.
  unfold resolved_value in Hv. unfold missing_records.
  cbn [keys fmap list_fmap omap list_omap].
  destruct (input_variables0 !! k) as [e|] eqn:Hk.
  - rewrite Hv. set (w1 := mkWorld _ _).
    rewrite (IH tail (done ++ [(k, set_value v var)]) w1 Halter Hnodup' eq_refl).
    subst w1. unfold with_input_variables, missing_records. cbn. rewrite Hk.
    by rewrite <- !app_assoc.
  - injection Hv as <-. set (w1 := mkWorld _ _).
    rewrite (IH tail (done ++ [(k, set_value (default var) var)]) w1 Halter Hnodup' eq_refl).
    subst w1. unfold with_input_variables, missing_records. cbn. rewrite Hk.
    by rewrite <- !app_assoc.
Qed.

(** Input normalization resolves the entry the caller supplied under a
    registered name by the two [isinstance] tests: the [value] field of
    an input-variable object, a float as it is, and for anything else
    the scalar its [item()] extracts (so the call returns only if the
    entry has one, which an int has not); the registered variable then
    holds that value and is otherwise unchanged. *)
Lemma prepare_inputs_resolves_entry (input_variables0 : gmap string input_entry)
    (w w' : world) (tensors : gmap string Tensor)
    (k : string) (var : variable_record) (e : input_entry) :
  NoDup (keys (input_variables (self w))) →
  _prepare_inputs input_variables0 w = (Returns tensors, w') →
  (k, var) ∈ input_variables (self w) →
  input_variables0 !! k = Some e →
  ∃ v, dict_get (input_variables (self w')) k = Some (set_value v var)
       ∧ match e with
         | AnInputVariable supplied => v = value supplied
         | AFloat x => v = VNum x
         | ATensor t => ∃ x, item t = Returns x ∧ v = VNum x
         | AnInt _ | AnObject => False
         end.
Proof.
  intros Hnodup Hrun Hin He.
  destruct (prepare_inputs_returns _ _ _ _ Hnodup Hrun) as (registry & Hreg & _ & ->).
  destruct (resolved_registry_entry _ _ _ _ _ Hreg Hnodup Hin) as (v & Hv & Hget).
  exists v. split; [done|]. unfold resolved_value in Hv. rewrite He in Hv.
  destruct e as [supplied|x|t|n|]; cbn in Hv; try discriminate;
    [by injection Hv | by injection Hv |].
  destruct (item t) as [x|err]; [|done]. exists x. by injection Hv.
Qed.

(** C5. An int is a plain numeric scalar, and it is not taken directly.
    The code tells a plain numeric scalar by [isinstance(x, float)],
    which an int does not pass, so the entry falls to the branch for
    tensor-likes, where [x.item()] raises [AttributeError].  For an int
    supplied under a registered name the loop body raises that error
    before it assigns anything, [evaluate] cannot return, and when the
    variables registered before that name resolve, the error [evaluate]
    raises is that [AttributeError], with those variables already
    updated. *)
Theorem prepare_inputs_int_entry_raises (input_variables0 : gmap string input_entry)
    (w : world) (k : string) (var : variable_record) (n : Z) :
  NoDup (keys (input_variables (self w))) →
  (k, var) ∈ input_variables (self w) →
  input_variables0 !! k = Some (AnInt n) →
  (∀ w2, resolve_input input_variables0 (k, var) w2 = (Raises (AttributeError "item"), w2))
  ∧ (∃ e w', evaluate input_variables0 w = (Raises e, w'))
  ∧ (∀ front back front',
       input_variables (self w) = front ++ (k, var) :: back →
       resolved_registry input_variables0 front = Returns front' →
       evaluate input_variables0 w
       = (Raises (AttributeError "item"),
          mkWorld (with_input_variables (front' ++ (k, var) :: back) (self w))
                  (logger w ++ missing_records input_variables0 front))).
Proof.
  intros Hnodup Hin Hk.
  assert (∀ w2, resolve_input input_variables0 (k, var) w2
                = (Raises (AttributeError "item"), w2)) as Hbody.
  { intros w2. by rewrite resolve_input_run, Hk. }
  split_and!; [done | |].
  - change (evaluate input_variables0)
      with (_prepare_inputs input_variables0 ≫= evaluate_from_inputs).
    rewrite bind_run.
    pose proof (prepare_inputs_run input_variables0 w Hnodup) as Hprepare.
    destruct (resolved_registry input_variables0 (input_variables (self w)))
      as [registry|e] eqn:Hregistry.
    + destruct (resolved_registry_entry _ _ _ _ _ Hregistry Hnodup Hin) as (v & Hv & _).
      unfold resolved_value in Hv. by rewrite Hk in Hv.
    + destruct Hprepare as [w' ->]. by eauto.
  - intros front back front' Hreg Hfront.
    change (evaluate input_variables0)
      with (_prepare_inputs input_variables0 ≫= evaluate_from_inputs).
    rewrite bind_run. unfold _prepare_inputs. rewrite bind_run.
    unfold resolve_inputs. rewrite bind_run. cbn [get_self].
    rewrite Hreg, for_each_app, bind_run.
    rewrite (resolve_inputs_segment input_variables0 front front' [] ((k, var) :: back) w);
      [|done|by rewrite <- Hreg|done].
    cbn [for_each app]. by rewrite bind_run, Hbody.
Qed.




(** C4. After the values are resolved, the second loop of input
    preparation gives every registered input an entry in the mapping it
    returns: a value that is already a tensor is stored as it is, with
    its own element type and gradient flag, and any other value is
    converted by [torch.tensor] to a double-precision tensor that tracks
    gradients. *)
Theorem prepare_inputs_coerces_values (input_variables0 : gmap string input_entry)
    (w w' : world) (tensors : gmap string Tensor) (k : string) (var' : variable_record) :
  NoDup (keys (input_variables (self w))) →
  _prepare_inputs input_variables0 w = (Returns tensors, w') →
  (k, var') ∈ input_variables (self w') →
  match value var' with
  | VTensor t => tensors !! k = Some t
  | v => ∃ t, torch_tensor v = Returns t
              ∧ tensors !! k = Some t
              ∧ tdtype t = torch_double
              ∧ requires_grad t = true
  end.
Proof.
  intros Hnodup Hrun Hin.
  destruct (prepare_inputs_returns _ _ _ _ Hnodup Hrun) as (registry & Hreg & Htensors & ->).
  cbn [self input_variables with_input_variables] in Hin.
  assert (NoDup (keys registry)) as Hnodup'.
  { by rewrite (resolved_registry_keys _ _ _ Hreg). }
  destruct (tensors_from_lookup _ _ _ Hnodup' Htensors) as [_ Hlookup].
  destruct (Hlookup k var' Hin) as (t & Ht & Hk). unfold coerced in Ht.
  destruct (value var') as [|x|t0|elems dims]; cbn in Ht; try done.
  - exists t. injection Ht as <-. by split_and!.
  - by injection Ht as <-.
  - exists t. injection Ht as <-. by split_and!.
Qed.

(** ** The update of the output registry *)

Lemma stores_get (k : string) (target target' : variable_record) (w w' : world) :
  dict_get (output_variables (self w)) k = Some target →
  stores k target' w w' →
  dict_get (output_variables (self w')) k = Some target'.
Proof.
  intros Hget ->. rewrite dict_get_alter, Hget. by case_decide.
Qed.

Lemma stores_trans (k : string) (t1 t2 : variable_record) (w w1 w2 : world) :
  stores k t1 w w1 → stores k t2 w1 w2 → stores k t2 w w2.
Proof. unfold stores. intros -> ->. by rewrite dict_alter_alter. Qed.

Lemma stores_same (k : string) (target : variable_record) (w : world) :
  dict_get (output_variables (self w)) k = Some target → stores k target w w.
Proof.
  unfold stores. generalize (output_variables (self w)). intros d.
  induction d as [|[k' v] d IH]; [done|]. cbn [dict_get dict_alter].
  case_decide; [by intros [= ->]|]. intros Hget. by rewrite <- IH.
Qed.

Lemma assign_output_run (k : string) (f : variable_record → variable_record)
    (target : variable_record) (w : world) :
  dict_get (output_variables (self w)) k = Some target →
  ∃ w', assign_output k f w = (Returns (), w') ∧ stores k (f target) w w'.
Proof.
  intros Hget. unfold assign_output, output_variable. rewrite !bind_run.
  cbn [get_self]. rewrite Hget. eexists. split; [done|].
  unfold stores. cbn. by apply dict_alter_ext with target.
Qed.

Lemma update_limit_run (predicted_output : gmap string Tensor) (k : string)
    (reference : variable_record → option string)
    (assign : pyval → variable_record → variable_record)
    (target : variable_record) (w : world) :
  dict_get (output_variables (self w)) k = Some target →
  match with_limit predicted_output reference assign target with
  | Returns target' =>
      ∃ w', update_limit predicted_output k reference assign w = (Returns (), w')
            ∧ stores k target' w w'
  | Raises e => update_limit predicted_output k reference assign w = (Raises e, w)
  end.
Proof.
  intros Hget. unfold update_limit, with_limit, output_variable.
  rewrite !bind_run. cbn [get_self]. rewrite Hget. cbn [mret M_ret].
  destruct (truthy (reference target)) as [r|].
  - rewrite bind_lift_run. destruct (subscript predicted_output r) as [t|e]; [|done].
    cbn. rewrite bind_lift_run. destruct (item t) as [x|e]; [|done].
    cbn. by apply assign_output_run.
  - exists w. split; [done|]. by apply stores_same.
Qed.

Lemma update_output_run (predicted_output : gmap string Tensor)
    (variable target : variable_record) (w : world) :
  dict_get (output_variables (self w)) (name variable) = Some target →
  match updated_variable predicted_output variable target with
  | Returns target' =>
      ∃ w', update_output predicted_output variable w = (Returns (), w')
            ∧ stores (name variable) target' w w'
  | Raises e => ∃ w', update_output predicted_output variable w = (Raises e, w')
  end.
Proof.
  intros Hget. unfold update_output, updated_variable.
  destruct (decide (variable_type variable = "scalar")) as [_|_].
  { rewrite bind_lift_run.
    destruct (subscript predicted_output (name variable)) as [t|e]; [|by eexists].
    cbn. rewrite bind_lift_run. destruct (item t) as [x|e]; [|by eexists].
    cbn. by apply assign_output_run. }
  destruct (decide (variable_type variable = "image")) as [_|_].
  2:{ exists w. split; [done|]. by apply stores_same. }
  rewrite bind_lift_run.
  destruct (subscript predicted_output (name variable)) as [t|e]; [|by eexists].
  cbn. rewrite bind_lift_run. destruct (reshape t (shape variable)) as [t'|e]; [|by eexists].
  cbn. rewrite bind_lift_run. destruct (numpy t') as [a|e]; [|by eexists].
  cbn. rewrite bind_run.
  destruct (assign_output_run (name variable) (set_value a) target w Hget) as (w1 & -> & Hs1).
  pose proof (stores_get _ _ _ _ _ Hget Hs1) as Hget1.
  rewrite bind_run.
  pose proof (update_limit_run predicted_output (name variable)
                x_min_variable set_x_min _ w1 Hget1) as Hl.
  destruct (with_limit predicted_output x_min_variable set_x_min _) as [target2|e];
    [destruct Hl as (w2 & -> & Hs2) | rewrite Hl; by eexists].
  pose proof (stores_get _ _ _ _ _ Hget1 Hs2) as Hget2.
  pose proof (stores_trans _ _ _ _ _ _ Hs1 Hs2) as Hs2'.
  cbn. rewrite bind_run.
  pose proof (update_limit_run predicted_output (name variable)
                x_max_variable set_x_max _ w2 Hget2) as Hl.
  destruct (with_limit predicted_output x_max_variable set_x_max _) as [target3|e];
    [destruct Hl as (w3 & -> & Hs3) | rewrite Hl; by eexists].
  pose proof (stores_get _ _ _ _ _ Hget2 Hs3) as Hget3.
  pose proof (stores_trans _ _ _ _ _ _ Hs2' Hs3) as Hs3'.
  cbn. rewrite bind_run.
  pose proof (update_limit_run predicted_output (name variable)
                y_min_variable set_y_min _ w3 Hget3) as Hl.
  destruct (with_limit predicted_output y_min_variable set_y_min _) as [target4|e];
    [destruct Hl as (w4 & -> & Hs4) | rewrite Hl; by eexists].
  pose proof (stores_get _ _ _ _ _ Hget3 Hs4) as Hget4.
  pose proof (stores_trans _ _ _ _ _ _ Hs3' Hs4) as Hs4'.
  cbn.
  pose proof (update_limit_run predicted_output (name variable)
                y_max_variable set_y_max _ w4 Hget4) as Hl.
  destruct (with_limit predicted_output y_max_variable set_y_max _) as [target5|e];
    [destruct Hl as (w5 & -> & Hs5) | rewrite Hl; by eexists].
  exists w5. split; [done|]. by apply stores_trans with target4 w4.
Qed.

Lemma update_outputs_loop (predicted_output : gmap string Tensor)
    (items done : dict variable_record) (w : world) :
  output_variables (self w) = done ++ items →
  NoDup (keys (done ++ items)) →
  Forall (λ item, name item.2 = item.1) items →
  match updated_registry predicted_output items with
  | Returns items' =>
      ∃ w', for_each (values items) (update_output predicted_output) w = (Returns (), w')
            ∧ output_variables (self w') = done ++ items'
  | Raises e =>
      ∃ w', for_each (values items) (update_output predicted_output) w = (Raises e, w')
  end.
Proof.
  revert done w. induction items as [|[k var] items IH]; intros done w Hreg Hnodup Hnames.
  { cbn. by exists w. }
  apply Forall_cons in Hnames as [Hname Hnames]. cbn in Hname.
  assert (k ∉ keys done) as Hfresh.
  { unfold keys in *. rewrite fmap_app in Hnodup. apply NoDup_app in Hnodup as (_ & Hdisj & _).
    intros Hin. apply (Hdisj k Hin). cbn. apply elem_of_cons. by left. }
  assert (dict_get (output_variables (self w)) (name var) = Some var) as Hget.
  { rewrite Hreg, Hname, dict_get_app_fresh by done. cbn. by case_decide. }
  cbn [updated_registry values fmap list_fmap for_each snd]. rewrite bind_run.
  pose proof (update_output_run predicted_output var var w Hget) as Hstep.
  destruct (updated_variable predicted_output var var) as [var'|e];
    [|destruct Hstep as [w' ->]; by eexists].
  destruct Hstep as (w1 & -> & Hstore). cbn.
  assert (output_variables (self w1) = (done ++ [(k, var')]) ++ items) as Hreg1.
  { rewrite Hstore, Hreg, Hname, dict_alter_app_fresh by done. cbn [dict_alter].
    case_decide; [|done]. by rewrite <- app_assoc. }
  specialize (IH (done ++ [(k, var')]) w1 Hreg1).
  rewrite (keys_app_single done items k var' var), <- app_assoc in IH.
  specialize (IH Hnodup Hnames).
  destruct (updated_registry predicted_output items) as [rest|e]; [|exact IH].
  destruct IH as (w' & Hrun & Hfinal). exists w'. split; [exact Hrun|].
  cbn. by rewrite Hfinal, <- app_assoc.
Qed.

Lemma updated_registry_returns (predicted_output : gmap string Tensor)
    (items items' : dict variable_record) :
  updated_registry predicted_output items = Returns items' →
  Forall2 (λ item item',
             item'.1 = item.1
             ∧ updated_variable predicted_output item.2 item.2 = Returns item'.2)
          items items'.
Proof.
  revert items'. induction items as [|[k var] items IH]; intros items'.
  { intros [= <-]. constructor. }
  cbn [updated_registry].
  destruct (updated_variable predicted_output var var) as [var'|e] eqn:Hvar; [|discriminate].
  cbn. destruct (updated_registry predicted_output items) as [rest|e]; [|discriminate].
  cbn. intros [= <-]. constructor; [done | by apply IH].
Qed.

(** When the loop returns, every registered variable has been replaced by
    its update. *)
Lemma update_outputs_returns (predicted_output : gmap string Tensor) (w w' : world)
    (k : string) (variable : variable_record) :
  named_registry (output_variables (self w)) →
  update_outputs predicted_output w = (Returns (), w') →
  (k, variable) ∈ output_variables (self w) →
  ∃ variable',
    updated_variable predicted_output variable variable = Returns variable'
    ∧ dict_get (output_variables (self w')) k = Some variable'.
Proof.
  intros [Hnodup Hnames] Hrun Hin.
  unfold update_outputs in Hrun. rewrite bind_run in Hrun. cbn [get_self] in Hrun.
  pose proof (update_outputs_loop predicted_output (output_variables (self w)) [] w
                eq_refl Hnodup Hnames) as Hloop.
  destruct (updated_registry predicted_output (output_variables (self w)))
    as [items'|e] eqn:Hitems; [|destruct Hloop as [w1 Hloop]; congruence].
  destruct Hloop as (w1 & Hloop & Hfinal).
  assert (w1 = w') as -> by congruence. cbn in Hfinal.
  pose proof (updated_registry_returns _ _ _ Hitems) as Hall.
  assert (keys items' = keys (output_variables (self w))) as Hkeys.
  { clear -Hall. unfold keys.
    induction Hall as [|[k var] [k' var'] ? ? [Hk _] _ IH]; [done|].
    cbn in *. by rewrite Hk, IH. }
  apply list_elem_of_lookup in Hin as [i Hi].
  destruct (Forall2_lookup_l _ _ _ _ _ Hall Hi) as ([k' var'] & Hi' & Hk & Hvar).
  cbn in *. subst k'. exists var'. split; [done|]. rewrite Hfinal.
  apply dict_get_elem_of; [by rewrite Hkeys|]. apply list_elem_of_lookup. eauto.
Qed.

Lemma subscript_returns {V} (d : gmap string V) (k : string) (v : V) :
  subscript d k = Returns v ↔ d !! k = Some v.
Proof. unfold subscript. destruct (d !! k); naive_solver. Qed.

Lemma with_limit_returns (predicted_output : gmap string Tensor)
    (reference : variable_record → option string)
    (assign : pyval → variable_record → variable_record)
    (target target' : variable_record) :
  with_limit predicted_output reference assign target = Returns target' →
  match truthy (reference target) with
  | Some r =>
      ∃ t x, predicted_output !! r = Some t ∧ item t = Returns x
             ∧ target' = assign (VNum x) target
  | None => target' = target
  end.
Proof.
  unfold with_limit. destruct (truthy (reference target)) as [r|]; [|by intros [= <-]].
  destruct (subscript predicted_output r) as [t|e] eqn:Ht; [|done]. cbn.
  destruct (item t) as [x|e] eqn:Hx; [|done]. cbn. intros [= <-].
  exists t, x. by rewrite <- subscript_returns.
Qed.

Lemma updated_scalar (predicted_output : gmap string Tensor)
    (variable target target' : variable_record) :
  variable_type variable = "scalar" →
  updated_variable predicted_output variable target = Returns target' →
  ∃ t x, predicted_output !! name variable = Some t ∧ item t = Returns x
         ∧ target' = set_value (VNum x) target.
Proof.
  intros Htype. unfold updated_variable. rewrite decide_True by done.
  destruct (subscript _ _) as [t|e] eqn:Ht; [|done]. cbn.
  destruct (item t) as [x|e] eqn:Hx; [|done]. cbn. intros [= <-].
  exists t, x. by rewrite <- subscript_returns.
Qed.

Lemma updated_image (predicted_output : gmap string Tensor)
    (variable target' : variable_record) :
  variable_type variable = "image" →
  updated_variable predicted_output variable variable = Returns target' →
  limit_updated predicted_output (x_min_variable variable) (x_min variable) (x_min target')
  ∧ limit_updated predicted_output (x_max_variable variable) (x_max variable) (x_max target')
  ∧ limit_updated predicted_output (y_min_variable variable) (y_min variable) (y_min target')
  ∧ limit_updated predicted_output (y_max_variable variable) (y_max variable) (y_max target').
Proof.
  intros Htype. unfold updated_variable.
  rewrite decide_False by (by rewrite Htype). rewrite decide_True by done.
  destruct (subscript _ _) as [t|e]; [|done]. cbn.
  destruct (reshape t _) as [t'|e]; [|done]. cbn.
  destruct (numpy t') as [a|e]; [|done]. cbn.
  destruct (with_limit _ x_min_variable _ _) as [v1|e] eqn:H1; [|done]. cbn.
  destruct (with_limit _ x_max_variable _ _) as [v2|e] eqn:H2; [|done]. cbn.
  destruct (with_limit _ y_min_variable _ _) as [v3|e] eqn:H3; [|done]. cbn.
  intros H4.
  apply with_limit_returns in H1, H2, H3, H4. unfold limit_updated.
  assert (x_min_variable v1 = x_min_variable variable ∧ x_max_variable v1 = x_max_variable variable
          ∧ y_min_variable v1 = y_min_variable variable
          ∧ y_max_variable v1 = y_max_variable variable
          ∧ x_max v1 = x_max variable ∧ y_min v1 = y_min variable ∧ y_max v1 = y_max variable)
    as (R11 & R12 & R13 & R14 & B12 & B13 & B14).
  { cbn in H1. destruct (truthy (x_min_variable variable));
      [destruct H1 as (? & ? & _ & _ & ->) | subst v1]; done. }
  assert (x_min_variable v2 = x_min_variable v1 ∧ x_max_variable v2 = x_max_variable v1
          ∧ y_min_variable v2 = y_min_variable v1 ∧ y_max_variable v2 = y_max_variable v1
          ∧ x_min v2 = x_min v1 ∧ y_min v2 = y_min v1 ∧ y_max v2 = y_max v1)
    as (R21 & R22 & R23 & R24 & B21 & B23 & B24).
  { destruct (truthy (x_max_variable v1));
      [destruct H2 as (? & ? & _ & _ & ->) | subst v2]; done. }
  assert (x_min_variable v3 = x_min_variable v2 ∧ x_max_variable v3 = x_max_variable v2
          ∧ y_min_variable v3 = y_min_variable v2 ∧ y_max_variable v3 = y_max_variable v2
          ∧ x_min v3 = x_min v2 ∧ x_max v3 = x_max v2 ∧ y_max v3 = y_max v2)
    as (R31 & R32 & R33 & R34 & B31 & B32 & B34).
  { destruct (truthy (y_min_variable v2));
      [destruct H3 as (? & ? & _ & _ & ->) | subst v3]; done. }
  assert (x_min target' = x_min v3 ∧ x_max target' = x_max v3 ∧ y_min target' = y_min v3)
    as (B41 & B42 & B43).
  { destruct (truthy (y_max_variable v3));
      [destruct H4 as (? & ? & _ & _ & ->) | subst target']; done. }
  cbn [x_min_variable set_value] in H1.
  rewrite R12 in H2. rewrite R23, R13 in H3. rewrite R34, R24, R14 in H4.
  rewrite B41, B31, B21, B42, B32, B43.
  split_and!.
  - destruct (truthy (x_min_variable variable)); [|by subst v1].
    destruct H1 as (t1 & x1 & ? & ? & ->). by exists t1, x1.
  - destruct (truthy (x_max_variable variable)); [|by subst v2].
    destruct H2 as (t2 & x2 & ? & ? & ->). by exists t2, x2.
  - destruct (truthy (y_min_variable variable)); [|by subst v3; rewrite B23].
    destruct H3 as (t3 & x3 & ? & ? & ->). by exists t3, x3.
  - destruct (truthy (y_max_variable variable)); [|by subst target'; rewrite B34, B24].
    destruct H4 as (t4 & x4 & ? & ? & ->). by exists t4, x4.
Qed.

Lemma parsed_outputs_registry (input_variables0 : gmap string input_entry) (w : world) :
  output_variables (self (snd (parsed_outputs input_variables0 w)))
  = output_variables (self w).
Proof. by destruct (within_parsed_outputs input_variables0 w) as [_ ?]. Qed.

(** C7. After a successful [evaluate], each of the four limits of an
    image output whose back-reference is set holds the scalar of the
    referenced entry of the mapping parsed in this very call, which is
    also the value the referenced scalar output holds after the call;
    a limit whose back-reference is unset (or empty) is as it was. *)
Theorem evaluate_updates_image_limits (input_variables0 : gmap string input_entry)
    (w w' : world) (out : evaluate_output) (k : string) (variable : variable_record) :
  named_registry (output_variables (self w)) →
  evaluate input_variables0 w = (Returns out, w') →
  (k, variable) ∈ output_variables (self w) →
  variable_type variable = "image" →
  ∃ predicted_output w1 variable',
    parsed_outputs input_variables0 w = (Returns predicted_output, w1)
    ∧ dict_get (output_variables (self w')) k = Some variable'
    ∧ limit_updated predicted_output (x_min_variable variable) (x_min variable) (x_min variable')
    ∧ limit_updated predicted_output (x_max_variable variable) (x_max variable) (x_max variable')
    ∧ limit_updated predicted_output (y_min_variable variable) (y_min variable) (y_min variable')
    ∧ limit_updated predicted_output (y_max_variable variable) (y_max variable) (y_max variable')
    ∧ ∀ r referenced t x,
        (r, referenced) ∈ output_variables (self w) →
        variable_type referenced = "scalar" →
        predicted_output !! r = Some t → item t = Returns x →
        ∃ referenced',
          dict_get (output_variables (self w')) r = Some referenced'
          ∧ value referenced' = VNum x.
Proof.
  intros Hnamed (p & w1 & Hparsed & Hupdate & _ & _)%evaluate_returns Hin Htype.
  pose proof (parsed_outputs_registry input_variables0 w) as Hreg.
  rewrite Hparsed in Hreg. cbn [snd] in Hreg. rewrite <- Hreg in Hnamed, Hin.
  destruct (update_outputs_returns _ _ _ _ _ Hnamed Hupdate Hin) as (variable' & Hvar & Hget).
  exists p, w1, variable'. split; [done|]. split; [done|].
  destruct (updated_image _ _ _ Htype Hvar) as (? & ? & ? & ?). split_and!; [done..|].
  intros r referenced t x Hr Hscalar Ht Hx. rewrite <- Hreg in Hr.
  destruct (update_outputs_returns _ _ _ _ _ Hnamed Hupdate Hr) as (referenced' & Hvar' & Hget').
  exists referenced'. split; [done|].
  destruct (updated_scalar _ _ _ _ Hscalar Hvar') as (t' & x' & Ht' & Hx' & ->).
  destruct Hnamed as [_ Hnames]. rewrite Forall_forall in Hnames.
  specialize (Hnames _ Hr). cbn in Hnames. rewrite Hnames in Ht'. cbn. congruence.
Qed.

(** C8. The ["tensor"] and the ["variable"] formats package the same
    computation: if [evaluate] returns the parsed mapping under a format
    of type ["tensor"], then from the same adapter and the same inputs
    it returns the output registry under a format of type ["variable"],
    and every scalar output's record holds the scalar [item()] extracts
    from the entry of the same name in the parsed mapping. *)
Theorem evaluate_variable_matches_tensor (input_variables0 : gmap string input_entry)
    (w wt : world) (fmt_t fmt_v : gmap string string) (predicted_output : gmap string Tensor) :
  named_registry (output_variables (self w)) →
  fmt_t !! "type" = Some "tensor" →
  fmt_v !! "type" = Some "variable" →
  evaluate input_variables0 (with_output_format fmt_t w) = (Returns (Tensors predicted_output), wt) →
  ∃ registry wv,
    evaluate input_variables0 (with_output_format fmt_v w) = (Returns (Variables registry), wv)
    ∧ ∀ k variable,
        (k, variable) ∈ output_variables (self w) →
        variable_type variable = "scalar" →
        ∃ variable' t x,
          dict_get registry k = Some variable'
          ∧ predicted_output !! k = Some t
          ∧ item t = Returns x
          ∧ value variable' = VNum x.
Proof.
  intros Hnamed Ht Hv. rewrite !evaluate_stages.
  rewrite !(ignores_format_parsed_outputs input_variables0).
  pose proof (parsed_outputs_registry input_variables0 w) as Hreg.
  destruct (parsed_outputs input_variables0 w) as [[p|e] w1]; [|discriminate].
  cbn [fst snd] in *. rewrite !(ignores_format_update_outputs p).
  destruct (update_outputs p w1) as [[[]|e] w2] eqn:Hupdate; [|discriminate].
  cbn [fst snd]. rewrite !format_outputs_run. cbn [self with_output_format _output_format].
  rewrite Ht, Hv. rewrite decide_True by done.
  rewrite decide_False by done. rewrite decide_True by done.
  intros [= <- _]. eexists _, _. split; [done|].
  intros k variable Hin Hscalar. cbn [output_variables].
  rewrite <- Hreg in Hnamed, Hin.
  destruct (update_outputs_returns _ _ _ _ _ Hnamed Hupdate Hin) as (variable' & Hvar & Hget).
  destruct (updated_scalar _ _ _ _ Hscalar Hvar) as (t & x & Ht' & Hx & ->).
  destruct Hnamed as [_ Hnames]. rewrite Forall_forall in Hnames.
  specialize (Hnames _ Hin). cbn in Hnames. rewrite Hnames in Ht'.
  by exists (set_value (VNum x) variable), t, x.
Qed.

(** ** Reshaping an image *)









Lemma for_each_returns {A} (xs : list A) (body : A → M unit) (w w' : world) (x : A) :
  for_each xs body w = (Returns (), w') → x ∈ xs →
  ∃ w1 w2, body x w1 = (Returns (), w2).
Proof.
  revert w. induction xs as [|x0 xs IH]; intros w Hrun Hin.
  { by apply elem_of_nil in Hin. }
  cbn [for_each] in Hrun. apply bind_returns in Hrun as ([] & w1 & Hhead & Hrest).
  apply elem_of_cons in Hin as [->|Hin]; [by eauto | by eapply IH].
Qed.




(** ** The inverse-transform stage *)

Lemma for_fold_untransform (chain : list Transformer) (x : Tensor) (w : world) :
  for_fold chain x (λ model_output transformer, lift (untransform transformer model_output)) w
  = (untransform_in_order chain x, w).
Proof.
  revert x. induction chain as [|t chain IH]; intros x; [done|].
  cbn [for_fold untransform_in_order]. rewrite bind_lift_run.
  destruct (untransform t x) as [y|e]; [apply IH | done].
Qed.

Lemma untransform_in_order_app (c1 c2 : list Transformer) (x : Tensor) :
  untransform_in_order (c1 ++ c2) x = untransform_in_order c1 x ≫= untransform_in_order c2.
Proof.
  revert x. induction c1 as [|t c1 IH]; intros x; [done|].
  cbn [app untransform_in_order]. destruct (untransform t x) as [y|e]; [apply IH | done].
Qed.

(** C3. The inverse-transform stage applies the [untransform] of each
    transform of the output chain in the configured order: the first
    configured transform is undone first, the last one last; the adapter
    object and the logger are left as they were. *)
Theorem transform_outputs_configured_order (model_output : Tensor) (w : world) :
  _transform_outputs model_output w
  = (untransform_in_order (_output_transformers (self w)) model_output, w)
  ∧ (∀ first rest,
       _output_transformers (self w) = first :: rest →
       fst (_transform_outputs model_output w)
       = untransform first model_output ≫= untransform_in_order rest)
  ∧ (∀ front last,
       _output_transformers (self w) = front ++ [last] →
       fst (_transform_outputs model_output w)
       = untransform_in_order front model_output ≫= untransform last).
Proof.
  assert (Hrun : _transform_outputs model_output w
                 = (untransform_in_order (_output_transformers (self w)) model_output, w)).
  { unfold _transform_outputs. rewrite bind_run. cbn [get_self].
    apply for_fold_untransform. }
  split; [exact Hrun|]. rewrite Hrun. cbn [fst]. split.
  - intros first rest ->. reflexivity.
  - intros front last ->. rewrite untransform_in_order_app.
    destruct (untransform_in_order front model_output) as [y|e]; [|done].
    cbn. by destruct (untransform last y).
Qed.

(** ** Feature arrangement *)

Lemma arrange_inputs_run (input_variables0 : gmap string Tensor) (w : world) :
  _arrange_inputs input_variables0 w
  = (for_fold (feature_names (self w)) [] (append_feature input_variables0)
       ≫= λ features, lift (torch_stack features)) w.
Proof.
  unfold _arrange_inputs, feature_names. rewrite !bind_run. cbn [get_self].
  by destruct (_feature_order (self w)).
Qed.

Lemma append_feature_run (input_variables0 : gmap string Tensor)
    (features : list Tensor) (k : string) (w : world) :
  append_feature input_variables0 features k w
  = match input_variables0 !! k with
    | Some t => (Returns (features ++ [t]), w)
    | None => (Raises (KeyError k), w)
    end.
Proof.
  unfold append_feature. rewrite bind_lift_run. unfold subscript.
  by destruct (input_variables0 !! k).
Qed.

Lemma append_features_missing (input_variables0 : gmap string Tensor)
    (names : list string) (features : list Tensor) (w : world) (n : string) :
  n ∈ names → input_variables0 !! n = None →
  ∃ front n' back,
    names = front ++ n' :: back
    ∧ Forall (λ k, is_Some (input_variables0 !! k)) front
    ∧ input_variables0 !! n' = None
    ∧ for_fold names features (append_feature input_variables0) w = (Raises (KeyError n'), w).
Proof.
  revert features. induction names as [|k names IH]; intros features Hin Hn.
  { by apply elem_of_nil in Hin. }
  destruct (input_variables0 !! k) as [t|] eqn:Hk.
  - assert (n ∈ names) as Hin'.
    { apply elem_of_cons in Hin as [->|]; [congruence | done]. }
    destruct (IH (features ++ [t]) Hin' Hn) as (front & n' & back & -> & Hfront & Hn' & Hrun).
    exists (k :: front), n', back. split_and!; [done | | done |].
    + constructor; [by rewrite Hk | done].
    + cbn [for_fold]. rewrite bind_run, append_feature_run, Hk. exact Hrun.
  - exists [], k, names. split_and!; [done | constructor | done |].
    cbn [for_fold]. by rewrite bind_run, append_feature_run, Hk.
Qed.

Lemma append_features_returns (input_variables0 : gmap string Tensor)
    (names : list string) (features features' : list Tensor) (w w' : world) :
  for_fold names features (append_feature input_variables0) w = (Returns features', w') →
  w' = w
  ∧ ∃ found, features' = features ++ found
      ∧ Forall2 (λ k t, input_variables0 !! k = Some t) names found.
Proof.
  revert features. induction names as [|k names IH]; intros features.
  { cbn. intros [= <- <-]. split; [done|]. exists []. by rewrite app_nil_r. }
  cbn [for_fold]. rewrite bind_run, append_feature_run.
  destruct (input_variables0 !! k) as [t|] eqn:Hk; [|discriminate].
  intros Hrun. destruct (IH _ Hrun) as (-> & found & -> & Hfound).
  split; [done|]. exists (t :: found). rewrite <- app_assoc. split; [done|].
  by constructor.
Qed.

Lemma torch_stack_returns (ts : list Tensor) (t : Tensor) :
  torch_stack ts = Returns t →
  ∃ dims, tshape t = length ts :: dims ∧ tdata t = concat (tdata <$> ts).
Proof.
  destruct ts as [|t0 rest]; [discriminate|]. unfold torch_stack.
  destruct (forallb _ rest); [|discriminate]. intros [= <-]. eauto.
Qed.

(** C6. When a name of the feature order (the configured one, or the
    registry's insertion order when none is configured) has no entry in
    the normalized input mapping, feature arrangement raises the lookup
    failure [KeyError] for the first such name and changes nothing; and
    whenever it does return a vector, every name of the order was looked
    up successfully and the vector holds one slot per name, in order. *)
Theorem arrange_inputs_missing_feature (input_variables0 : gmap string Tensor) (w : world) :
  (∀ n, n ∈ feature_names (self w) → input_variables0 !! n = None →
     ∃ front n' back,
       feature_names (self w) = front ++ n' :: back
       ∧ Forall (λ k, is_Some (input_variables0 !! k)) front
       ∧ input_variables0 !! n' = None
       ∧ _arrange_inputs input_variables0 w = (Raises (KeyError n'), w))
  ∧ (∀ t w', _arrange_inputs input_variables0 w = (Returns t, w') →
       ∃ features dims,
         Forall2 (λ k x, input_variables0 !! k = Some x) (feature_names (self w)) features
         ∧ tshape t = length (feature_names (self w)) :: dims
         ∧ tdata t = concat (tdata <$> features)).
Proof.
  split.
  - intros n Hin Hn.
    destruct (append_features_missing input_variables0 _ [] w n Hin Hn)
      as (front & n' & back & Hsplit & Hfront & Hn' & Hrun).
    exists front, n', back. split_and!; [done..|].
    rewrite arrange_inputs_run, bind_run. by rewrite Hrun.
  - intros t w'. rewrite arrange_inputs_run. intros Hrun.
    apply bind_returns in Hrun as (features & w1 & Hfold & Hstack).
    apply append_features_returns in Hfold as (-> & found & -> & Hfound).
    unfold lift in Hstack. injection Hstack as Hstack <-.
    apply torch_stack_returns in Hstack as (dims & Hshape & Hdata).
    exists found, dims. cbn [app] in *. split_and!; [done | | done].
    by rewrite Hshape, (Forall2_length _ _ _ Hfound).
Qed.

(** * Further properties of the adapter *)

Local Open Scope nat_scope.

(** ** The transformer properties and their setters *)

Lemma py_insert_position {A} (loc : Z) (x : A) (l : list A) :
  (PY_SSIZE_T_MIN ≤ loc ≤ PY_SSIZE_T_MAX)%Z →
  ∃ i : nat, (i ≤ length l)%nat
       ∧ py_insert loc x l = Returns (take i l ++ x :: drop i l)
       ∧ ((0 ≤ loc ≤ Z.of_nat (length l))%Z → Z.of_nat i = loc)
       ∧ ((Z.of_nat (length l) ≤ loc)%Z → i = length l)
       ∧ ((- Z.of_nat (length l) ≤ loc < 0)%Z → Z.of_nat i = (Z.of_nat (length l) + loc)%Z)
       ∧ ((loc ≤ - Z.of_nat (length l))%Z → i = 0).
Proof.
  intros Hrange. unfold py_insert. rewrite decide_True by done.
  destruct (decide (loc < 0)%Z) as [Hneg|Hpos].
  - exists (Z.to_nat (Z.max 0 (loc + Z.of_nat (length l)))). split_and!; [lia | done | lia..].
  - exists (Z.to_nat (Z.min loc (Z.of_nat (length l)))). split_and!; [lia | done | lia..].
Qed.

Lemma py_insert_overflow {A} (loc : Z) (x : A) (l : list A) :
  ¬ (PY_SSIZE_T_MIN ≤ loc ≤ PY_SSIZE_T_MAX)%Z →
  py_insert loc x l = Raises OverflowError.
Proof. intros Hrange. unfold py_insert. by rewrite decide_False. Qed.

Lemma input_transformers_setter_run (transformer : Transformer) (loc : Z) (w : world) :
  input_transformers_setter (transformer, loc) w
  = match py_insert loc transformer (_input_transformers (self w)) with
    | Returns chain => (Returns (), mkWorld (with_input_transformers chain (self w)) (logger w))
    | Raises e => (Raises e, w)
    end.
Proof.
  unfold input_transformers_setter. rewrite bind_run. cbn [get_self].
  rewrite bind_lift_run. by destruct (py_insert loc transformer _).
Qed.

Lemma output_transformers_setter_run (transformer : Transformer) (loc : Z) (w : world) :
  output_transformers_setter (transformer, loc) w
  = match py_insert loc transformer (_output_transformers (self w)) with
    | Returns chain => (Returns (), mkWorld (with_output_transformers chain (self w)) (logger w))
    | Raises e => (Raises e, w)
    end.
Proof.
  unfold output_transformers_setter. rewrite bind_run. cbn [get_self].
  rewrite bind_lift_run. by destruct (py_insert loc transformer _).
Qed.

Lemma for_fold_transform (chain : list Transformer) (x : Tensor) (w : world) :
  for_fold chain x (λ input_values transformer, lift (transform transformer input_values)) w
  = (transform_in_order chain x, w).
Proof.
  revert x. induction chain as [|t chain IH]; intros x; [done|].
  cbn [for_fold transform_in_order]. rewrite bind_lift_run.
  destruct (transform t x) as [y|e]; [apply IH | done].
Qed.

Lemma transform_in_order_app (c1 c2 : list Transformer) (x : Tensor) :
  transform_in_order (c1 ++ c2) x = transform_in_order c1 x ≫= transform_in_order c2.
Proof.
  revert x. induction c1 as [|t c1 IH]; intros x; [done|].
  cbn [app transform_in_order]. destruct (transform t x) as [y|e]; [apply IH | done].
Qed.

Lemma transform_inputs_run (input_values : Tensor) (w : world) :
  _transform_inputs input_values w
  = (transform_in_order (_input_transformers (self w)) input_values, w).
Proof.
  unfold _transform_inputs. rewrite bind_run. cbn [get_self]. apply for_fold_transform.
Qed.

Lemma transform_outputs_run (model_output : Tensor) (w : world) :
  _transform_outputs model_output w
  = (untransform_in_order (_output_transformers (self w)) model_output, w).
Proof.
  unfold _transform_outputs. rewrite bind_run. cbn [get_self]. apply for_fold_untransform.
Qed.

(** X1. The forward-transform stage applies the input chain in its
    configured order and changes nothing in the adapter; a transform
    that raises stops the chain: the transforms after it are not applied
    and its exception is the one the stage raises. *)
Theorem transform_inputs_stops_at_first_failure (input_values y : Tensor) (w : world)
    (front back : list Transformer) (failing : Transformer) (e : exn) :
  _input_transformers (self w) = front ++ failing :: back →
  transform_in_order front input_values = Returns y →
  transform failing y = Raises e →
  _transform_inputs input_values w = (Raises e, w).
Proof.
  intros Hchain Hfront Hfail. rewrite transform_inputs_run, Hchain, transform_in_order_app.
  rewrite Hfront. cbn. by rewrite Hfail.
Qed.

(** X2. Assigning [(transformer, loc)] to [input_transformers] or to
    [output_transformers] never replaces the chain.  When [loc] fits a
    [Py_ssize_t] the assignment returns and inserts the transformer,
    keeping every transformer already there in its order: at [loc] when
    it lies within the chain, at the end when [loc] is beyond it, counted
    from the end when [loc] is negative, and at the front when that falls
    before the start; the property read afterwards returns the new
    chain.  When [loc] does not fit, the assignment raises
    [OverflowError] and the adapter is as it was. *)
Theorem transformers_setter_inserts (transformer : Transformer) (loc : Z) (w : world) :
  ((PY_SSIZE_T_MIN ≤ loc ≤ PY_SSIZE_T_MAX)%Z →
   (∃ i : nat, (i ≤ length (_input_transformers (self w)))%nat
        ∧ (input_transformers_setter (transformer, loc) ≫= λ _, input_transformers) w
          = (Returns (take i (_input_transformers (self w))
                      ++ transformer :: drop i (_input_transformers (self w))),
             mkWorld (with_input_transformers
                        (take i (_input_transformers (self w))
                         ++ transformer :: drop i (_input_transformers (self w))) (self w))
                     (logger w))
        ∧ ((0 ≤ loc ≤ Z.of_nat (length (_input_transformers (self w))))%Z → Z.of_nat i = loc)
        ∧ ((Z.of_nat (length (_input_transformers (self w))) ≤ loc)%Z
           → i = length (_input_transformers (self w)))
        ∧ ((- Z.of_nat (length (_input_transformers (self w))) ≤ loc < 0)%Z
           → Z.of_nat i = (Z.of_nat (length (_input_transformers (self w))) + loc)%Z)
        ∧ ((loc ≤ - Z.of_nat (length (_input_transformers (self w))))%Z → i = 0))
   ∧ (∃ i : nat, (i ≤ length (_output_transformers (self w)))%nat
        ∧ (output_transformers_setter (transformer, loc) ≫= λ _, output_transformers) w
          = (Returns (take i (_output_transformers (self w))
                      ++ transformer :: drop i (_output_transformers (self w))),
             mkWorld (with_output_transformers
                        (take i (_output_transformers (self w))
                         ++ transformer :: drop i (_output_transformers (self w))) (self w))
                     (logger w))
        ∧ ((0 ≤ loc ≤ Z.of_nat (length (_output_transformers (self w))))%Z → Z.of_nat i = loc)
        ∧ ((Z.of_nat (length (_output_transformers (self w))) ≤ loc)%Z
           → i = length (_output_transformers (self w)))
        ∧ ((- Z.of_nat (length (_output_transformers (self w))) ≤ loc < 0)%Z
           → Z.of_nat i = (Z.of_nat (length (_output_transformers (self w))) + loc)%Z)
        ∧ ((loc ≤ - Z.of_nat (length (_output_transformers (self w))))%Z → i = 0)))
  ∧ (¬ (PY_SSIZE_T_MIN ≤ loc ≤ PY_SSIZE_T_MAX)%Z →
     input_transformers_setter (transformer, loc) w = (Raises OverflowError, w)
     ∧ output_transformers_setter (transformer, loc) w = (Raises OverflowError, w)).
Proof.
  split.
  - intros Hrange. split.
    + destruct (py_insert_position loc transformer (_input_transformers (self w)) Hrange)
        as (i & Hi & Hins & Hcases).
      exists i. split; [done|]. split; [|done].
      by rewrite bind_run, input_transformers_setter_run, Hins.
    + destruct (py_insert_position loc transformer (_output_transformers (self w)) Hrange)
        as (i & Hi & Hins & Hcases).
      exists i. split; [done|]. split; [|done].
      by rewrite bind_run, output_transformers_setter_run, Hins.
  - intros Hrange.
    by rewrite input_transformers_setter_run, output_transformers_setter_run,
         !py_insert_overflow.
Qed.

(** X3. A transformer inserted through the setters, at a [loc] that fits
    a [Py_ssize_t], takes part in the next evaluation at the place it
    was inserted: the forward stage applies it after the transforms
    before that place and before the others, and the inverse stage does
    the same with its [untransform]. *)
Theorem inserted_transformer_is_applied_in_place (transformer : Transformer) (loc : Z)
    (x : Tensor) (w : world) :
  (PY_SSIZE_T_MIN ≤ loc ≤ PY_SSIZE_T_MAX)%Z →
  (∃ (i : nat) w',
     input_transformers_setter (transformer, loc) w = (Returns (), w')
     ∧ (i ≤ length (_input_transformers (self w)))%nat
     ∧ ((0 ≤ loc ≤ Z.of_nat (length (_input_transformers (self w))))%Z → Z.of_nat i = loc)
     ∧ _transform_inputs x w'
       = ((transform_in_order (take i (_input_transformers (self w))) x
             ≫= transform transformer)
            ≫= transform_in_order (drop i (_input_transformers (self w))),
          w'))
  ∧ (∃ (i : nat) w',
       output_transformers_setter (transformer, loc) w = (Returns (), w')
       ∧ (i ≤ length (_output_transformers (self w)))%nat
       ∧ ((0 ≤ loc ≤ Z.of_nat (length (_output_transformers (self w))))%Z → Z.of_nat i = loc)
       ∧ _transform_outputs x w'
         = ((untransform_in_order (take i (_output_transformers (self w))) x
               ≫= untransform transformer)
              ≫= untransform_in_order (drop i (_output_transformers (self w))),
            w')).
Proof.
  intros Hrange. split.
  - destruct (py_insert_position loc transformer (_input_transformers (self w)) Hrange)
      as (i & Hi & Hins & Hloc & _).
    eexists i, _. rewrite input_transformers_setter_run, Hins.
    split; [reflexivity|]. split; [done|]. split; [done|].
    rewrite transform_inputs_run. cbn [self _input_transformers with_input_transformers].
    rewrite transform_in_order_app. f_equal.
    destruct (transform_in_order (take i _) x) as [y|e]; [|done]. cbn.
    by destruct (transform transformer y).
  - destruct (py_insert_position loc transformer (_output_transformers (self w)) Hrange)
      as (i & Hi & Hins & Hloc & _).
    eexists i, _. rewrite output_transformers_setter_run, Hins.
    split; [reflexivity|]. split; [done|]. split; [done|].
    rewrite transform_outputs_run. cbn [self _output_transformers with_output_transformers].
    rewrite untransform_in_order_app. f_equal.
    destruct (untransform_in_order (take i _) x) as [y|e]; [|done]. cbn.
    by destruct (untransform transformer y).
Qed.

(** ** What evaluate does to the registries *)

Lemma entrywise_refl (P : relation variable_record) `{!Reflexive P} (d : dict variable_record) :
  entrywise P d d.
Proof. unfold entrywise. induction d; constructor; auto. Qed.

Lemma entrywise_trans (P : relation variable_record) `{!Transitive P}
    (d1 d2 d3 : dict variable_record) :
  entrywise P d1 d2 → entrywise P d2 d3 → entrywise P d1 d3.
Proof.
  unfold entrywise. intros H12. revert d3.
  induction H12 as [|a b d1 d2 [Hk Hab] _ IH]; intros d3 H23.
  { by inversion H23. }
  inversion H23 as [|b' c ? d3' [Hk' Hbc] Hrest]; subst. constructor.
  - split; [congruence | by etrans].
  - by apply IH.
Qed.

Lemma entrywise_alter (P : relation variable_record) `{!Reflexive P}
    (f : variable_record → variable_record) (k : string) (d : dict variable_record) :
  (∀ var, P var (f var)) → entrywise P d (dict_alter f k d).
Proof.
  intros Hf. unfold entrywise. induction d as [|[k' var] d IH]; [constructor|].
  cbn [dict_alter]. case_decide.
  - constructor; [by split | by apply entrywise_refl].
  - constructor; [by split | done].
Qed.

Lemma entrywise_keys (P : relation variable_record) (d d' : dict variable_record) :
  entrywise P d d' → keys d' = keys d.
Proof.
  unfold entrywise, keys. induction 1 as [|a b d d' [Hk _] _ IH]; [done|].
  cbn. by rewrite Hk, IH.
Qed.

#[local] Instance same_but_value_preorder : PreOrder same_but_value.
Proof.
  split.
  - by intros [].
  - intros a b c Hab Hbc. unfold same_but_value in *. rewrite Hbc at 1. by rewrite Hab.
Qed.

#[local] Instance same_definition_preorder : PreOrder same_definition.
Proof.
  split.
  - by intros var.
  - intros a b c Hab Hbc. unfold same_definition in *. destruct_and!. split_and!; congruence.
Qed.

#[local] Instance registries_kept_preorder : PreOrder registries_kept.
Proof.
  split.
  - intros w. split_and!; [done | by apply entrywise_refl; apply _..].
  - intros w1 w2 w3 (? & ? & ?) (? & ? & ?). split_and!; [congruence | |].
    + by eapply (entrywise_trans same_but_value).
    + by eapply (entrywise_trans same_definition).
Qed.

Lemma kept_assign_input (k : string) (v : pyval) : within registries_kept (assign_input k v).
Proof.
  intros w. split_and!; cbn.
  - done.
  - apply entrywise_alter; [apply _|]. by intros [].
  - by apply entrywise_refl; apply _.
Qed.

Lemma kept_logger_info (msg : string) : within registries_kept (logger_info msg).
Proof. intros w. split_and!; cbn; [done | by apply entrywise_refl; apply _..]. Qed.

Lemma kept_assign_output (k : string) (f : variable_record → variable_record) :
  (∀ var, same_definition var (f var)) → within registries_kept (assign_output k f).
Proof.
  intros Hf w. unfold assign_output, output_variable. rewrite !bind_run. cbn [get_self].
  destruct (dict_get _ k); [|reflexivity]. split_and!; cbn.
  - done.
  - by apply entrywise_refl; apply _.
  - apply entrywise_alter; [apply _ | done].
Qed.

Lemma kept_output_variable (k : string) : within registries_kept (output_variable k).
Proof.
  intros w. unfold output_variable. rewrite bind_run. cbn [get_self].
  destruct (dict_get _ k); reflexivity.
Qed.

#[local] Hint Resolve kept_assign_input kept_logger_info kept_output_variable : within.

Lemma kept_resolve_input (input_variables0 : gmap string input_entry)
    (item : string * variable_record) :
  within registries_kept (resolve_input input_variables0 item).
Proof. destruct item as [var_name var]. unfold resolve_input. repeat within_step. Qed.

Lemma kept_as_tensor (acc : gmap string Tensor) (item : string * variable_record) :
  within registries_kept (as_tensor acc item).
Proof.
  destruct item as [var_name var]. unfold as_tensor.
  destruct (value var); cbn [is_tensor]; repeat within_step.
Qed.

Lemma kept_update_limit (predicted_output : gmap string Tensor) (k : string)
    (reference : variable_record → option string)
    (assign : pyval → variable_record → variable_record) :
  (∀ v var, same_definition var (assign v var)) →
  within registries_kept (update_limit predicted_output k reference assign).
Proof.
  intros Hassign.
  assert (∀ v, within registries_kept (assign_output k (assign v))) as Hstore.
  { intros v. by apply kept_assign_output. }
  unfold update_limit. within_step; [within_step|].
  destruct (truthy _); repeat within_step.
Qed.

Lemma kept_update_output (predicted_output : gmap string Tensor)
    (variable : variable_record) :
  within registries_kept (update_output predicted_output variable).
Proof.
  assert (∀ v, within registries_kept (assign_output (name variable) (set_value v)))
    as Hvalue by (intros v; by apply kept_assign_output).
  assert (within registries_kept
            (update_limit predicted_output (name variable) x_min_variable set_x_min))
    as Hx_min by (by apply kept_update_limit).
  assert (within registries_kept
            (update_limit predicted_output (name variable) x_max_variable set_x_max))
    as Hx_max by (by apply kept_update_limit).
  assert (within registries_kept
            (update_limit predicted_output (name variable) y_min_variable set_y_min))
    as Hy_min by (by apply kept_update_limit).
  assert (within registries_kept
            (update_limit predicted_output (name variable) y_max_variable set_y_max))
    as Hy_max by (by apply kept_update_limit).
  unfold update_output. repeat case_decide; repeat within_step.
Qed.

#[local] Hint Resolve kept_resolve_input kept_as_tensor kept_update_output : within.

Lemma kept_evaluate (input_variables0 : gmap string input_entry) :
  within registries_kept (evaluate input_variables0).
Proof.
  pose proof (λ x, within_eq_weaken registries_kept _ (arrange_inputs_world x)).
  pose proof (λ x, within_eq_weaken registries_kept _ (transform_inputs_world x)).
  pose proof (λ x, within_eq_weaken registries_kept _ (transform_outputs_world x)).
  pose proof (λ x, within_eq_weaken registries_kept _ (parse_outputs_world x)).
  assert (∀ p, within registries_kept (_prepare_outputs p)) as Hprepare.
  { intros p. unfold _prepare_outputs, update_outputs, format_outputs.
    within_step; [repeat within_step|].
    within_step; [within_step|]. repeat case_decide; within_step. }
  unfold evaluate, _prepare_inputs, resolve_inputs, as_tensors.
  repeat first [ done | within_step ].
Qed.

(** X4. Whether it returns or raises, [evaluate] leaves the adapter's
    configuration as it was and never adds, removes, renames or reorders
    a registered variable: an input variable changes in its value at
    most, and an output variable keeps its name, kind, default, shape and
    back-references. *)
Theorem evaluate_keeps_registries (input_variables0 : gmap string input_entry) (w : world) :
  configuration (self (snd (evaluate input_variables0 w))) = configuration (self w)
  ∧ keys (input_variables (self (snd (evaluate input_variables0 w))))
    = keys (input_variables (self w))
  ∧ keys (output_variables (self (snd (evaluate input_variables0 w))))
    = keys (output_variables (self w))
  ∧ entrywise same_but_value (input_variables (self w))
      (input_variables (self (snd (evaluate input_variables0 w))))
  ∧ entrywise same_definition (output_variables (self w))
      (output_variables (self (snd (evaluate input_variables0 w)))).
Proof.
  destruct (kept_evaluate input_variables0 w) as (Hconf & Hin & Hout).
  split_and!; [done | | | done..].
  - by apply entrywise_keys in Hin.
  - by apply entrywise_keys in Hout.
Qed.

(** ** Names the registry does not know, and failures half way *)

Lemma for_each_ext {A} (xs : list A) (body1 body2 : A → M unit) (w : world) :
  (∀ x w0, x ∈ xs → body1 x w0 = body2 x w0) →
  for_each xs body1 w = for_each xs body2 w.
Proof.
  revert w. induction xs as [|x xs IH]; intros w Hbody; [done|].
  cbn [for_each]. rewrite !bind_run, (Hbody x w) by apply list_elem_of_here.
  destruct (body2 x w) as [[[]|e] w1]; [|done].
  apply IH. intros x' w0 Hx'. by apply Hbody, list_elem_of_further.
Qed.

(** X5. An entry of the caller's mapping under a name that is not
    registered is ignored without a word: it changes neither what
    [evaluate] returns or raises, nor the adapter, nor the log. *)
Theorem evaluate_ignores_unregistered_name (input_variables0 : gmap string input_entry)
    (k : string) (e : input_entry) (w : world) :
  k ∉ keys (input_variables (self w)) →
  evaluate (<[k := e]> input_variables0) w = evaluate input_variables0 w.
Proof.
  intros Hk.
  change (evaluate (<[k := e]> input_variables0))
    with (_prepare_inputs (<[k := e]> input_variables0) ≫= evaluate_from_inputs).
  change (evaluate input_variables0)
    with (_prepare_inputs input_variables0 ≫= evaluate_from_inputs).
  rewrite !bind_run. unfold _prepare_inputs. rewrite !bind_run.
  unfold resolve_inputs. rewrite !bind_run. cbn [get_self].
  rewrite (for_each_ext _ (resolve_input (<[k := e]> input_variables0))
             (resolve_input input_variables0)); [done|].
  intros [k' var] w0 Hin. rewrite !resolve_input_run.
  rewrite lookup_insert_ne; [done|]. intros ->. apply Hk.
  unfold keys. apply list_elem_of_fmap. by exists (k', var).
Qed.

(** X6. A failure half way through input preparation is not rolled
    back.  When the entry supplied for a registered name cannot be
    resolved, [evaluate] raises the exception of that entry, and the
    variables registered before it keep the values this call has given
    them, while that variable and the ones after it are untouched. *)
Theorem evaluate_failure_keeps_earlier_inputs (input_variables0 : gmap string input_entry)
    (w : world) (front front' back : dict variable_record)
    (k : string) (var : variable_record) (e : input_entry) (err : exn) :
  NoDup (keys (input_variables (self w))) →
  input_variables (self w) = front ++ (k, var) :: back →
  resolved_registry input_variables0 front = Returns front' →
  input_variables0 !! k = Some e →
  entry_value e = Raises err →
  evaluate input_variables0 w
  = (Raises err,
     mkWorld (with_input_variables (front' ++ (k, var) :: back) (self w))
             (logger w ++ missing_records input_variables0 front)).
Proof.
  intros Hnodup Hreg Hfront Hk Herr.
  change (evaluate input_variables0)
    with (_prepare_inputs input_variables0 ≫= evaluate_from_inputs).
  rewrite bind_run. unfold _prepare_inputs. rewrite bind_run.
  unfold resolve_inputs. rewrite bind_run. cbn [get_self].
  rewrite Hreg, for_each_app, bind_run.
  rewrite (resolve_inputs_segment input_variables0 front front' [] ((k, var) :: back) w);
    [|done|by rewrite <- Hreg|done].
  cbn [for_each app]. rewrite bind_run, resolve_input_run, Hk, Herr. done.
Qed.

(** ** Output parsing *)

Lemma parse_loop_run (y : Tensor) (items : list (nat * string)) (acc : gmap string Tensor)
    (w : world) :
  for_fold items acc (λ output '(idx, output_name),
    t ← lift (getitem y idx); mret (<[output_name := t]> output)) w
  = (parsed_from y items acc, w).
Proof.
  revert acc. induction items as [|[idx output_name] items IH]; intros acc; [done|].
  cbn [for_fold parsed_from]. rewrite bind_run, bind_lift_run.
  destruct (getitem y idx) as [t|e]; [apply IH | done].
Qed.

Lemma parse_outputs_run (y : Tensor) (w : world) :
  _parse_outputs y w = (parsed_from y (enumerate (output_names (self w))) ∅, w).
Proof.
  unfold _parse_outputs, output_names. rewrite bind_run. cbn [get_self].
  destruct (_output_order (self w)); apply parse_loop_run.
Qed.

Lemma enumerate_cons {A} (j : nat) (x : A) (xs : list A) :
  imap (λ idx x, (j + idx, x)) (x :: xs) = (j, x) :: imap (λ idx x, (S j + idx, x)) xs.
Proof.
  cbn [imap]. rewrite Nat.add_0_r. f_equal. apply imap_ext. intros i y _. cbn.
  f_equal. lia.
Qed.

Lemma getitem_row (y : Tensor) (rows : nat) (dims : list nat) (idx : nat) :
  tshape y = rows :: dims → idx < rows → getitem y idx = Returns (row y idx).
Proof.
  intros Hshape Hidx. unfold getitem, row. rewrite Hshape. cbn [tail].
  by rewrite decide_True.
Qed.


Lemma parsed_from_rows (y : Tensor) (rows : nat) (dims : list nat)
    (names : list string) (j : nat) (acc : gmap string Tensor) :
  tshape y = rows :: dims →
  j + length names ≤ rows →
  ∃ out,
    parsed_from y (imap (λ idx x, (j + idx, x)) names) acc = Returns out
    ∧ dom out = dom acc ∪ list_to_set names
    ∧ (∀ k, k ∉ names → out !! k = acc !! k)
    ∧ (NoDup names → ∀ i name, names !! i = Some name → out !! name = Some (row y (j + i))).
Proof.
  intros Hshape. revert j acc. induction names as [|name names IH]; intros j acc Hlen.
  { exists acc. split_and!; [done | | done |].
    - cbn. by rewrite (right_id_L ∅ (∪)).
    - by intros _ i name' ?. }
  cbn [length] in Hlen. rewrite enumerate_cons. cbn [parsed_from].
  rewrite (getitem_row y rows dims j) by (done || lia). cbn.
  destruct (IH (S j) (<[name := row y j]> acc)) as (out & Hrun & Hdom & Hother & Hrows);
    [lia|].
  exists out. split_and!; [done | | |].
  - rewrite Hdom, dom_insert_L. cbn.
    by rewrite (assoc_L (∪) (dom acc)), (comm_L (∪) (dom acc)).
  - intros k [Hne Hk]%not_elem_of_cons. rewrite (Hother k Hk). by rewrite lookup_insert_ne.
  - intros [Hfresh Hnodup]%NoDup_cons [|i] name' Hi; cbn in Hi.
    + injection Hi as <-. rewrite (Hother name Hfresh), Nat.add_0_r.
      by rewrite lookup_insert_eq.
    + rewrite (Hrows Hnodup i name' Hi). do 2 f_equal. lia.
Qed.


Lemma parsed_from_dom (y : Tensor) (items : list (nat * string))
    (acc out : gmap string Tensor) :
  parsed_from y items acc = Returns out →
  dom out = dom acc ∪ list_to_set (snd <$> items).
Proof.
  revert acc. induction items as [|[idx name] items IH]; intros acc.
  { intros [= <-]. cbn. by rewrite (right_id_L ∅ (∪)). }
  cbn [parsed_from]. destruct (getitem y idx) as [t|e]; [|done]. cbn.
  intros Hrest%IH. rewrite Hrest, dom_insert_L.
  by rewrite (assoc_L (∪) (dom acc)), (comm_L (∪) (dom acc)).
Qed.

Lemma enumerate_names {A} (xs : list A) : snd <$> enumerate xs = xs.
Proof.
  unfold enumerate.
  assert (∀ f : nat → A → nat * A, (∀ i x, (f i x).2 = x) → snd <$> imap f xs = xs) as Himap.
  { induction xs as [|x xs IH]; intros f Hf; [done|].
    cbn [imap fmap list_fmap]. rewrite Hf. f_equal. apply IH. intros i y. apply Hf. }
  by apply Himap.
Qed.

(** X7. When the tensor handed to output parsing has at least as many
    rows as there are output names, the stage returns a mapping whose
    keys are exactly those names and changes nothing in the adapter;
    with distinct names, the name at position [i] holds row [i].  Rows
    beyond the last name are dropped without an error. *)
Theorem parse_outputs_rows (y : Tensor) (w : world) (rows : nat) (dims : list nat) :
  tshape y = rows :: dims →
  length (output_names (self w)) ≤ rows →
  ∃ out,
    _parse_outputs y w = (Returns out, w)
    ∧ dom out = list_to_set (output_names (self w))
    ∧ (NoDup (output_names (self w)) →
       ∀ i name, output_names (self w) !! i = Some name → out !! name = Some (row y i)).
Proof.
  intros Hshape Hlen.
  destruct (parsed_from_rows y rows dims (output_names (self w)) 0 ∅ Hshape)
    as (out & Hrun & Hdom & _ & Hrows); [lia|].
  exists out. rewrite parse_outputs_run. unfold enumerate. split_and!.
  - by rewrite <- Hrun.
  - by rewrite Hdom, dom_empty_L, (left_id_L ∅ (∪)).
  - done.
Qed.


(** ** Output slots that are missing or of the wrong kind *)

Lemma update_outputs_raises (predicted_output : gmap string Tensor) (w : world)
    (variable : variable_record) :
  variable ∈ values (output_variables (self w)) →
  (∀ w2, is_returns (fst (update_output predicted_output variable w2)) = false) →
  ∃ e w', update_outputs predicted_output w = (Raises e, w').
Proof.
  intros Hin Hbody.
  destruct (update_outputs predicted_output w) as [[[]|e] w'] eqn:Hupdate; [|by eauto].
  exfalso. unfold update_outputs in Hupdate. rewrite bind_run in Hupdate.
  cbn [get_self] in Hupdate.
  destruct (for_each_returns _ _ _ _ variable Hupdate Hin) as (w3 & w4 & Hrun).
  specialize (Hbody w3). by rewrite Hrun in Hbody.
Qed.

Lemma evaluate_raises_in_update (input_variables0 : gmap string input_entry) (w : world)
    (k : string) (variable : variable_record) :
  (k, variable) ∈ output_variables (self w) →
  (∀ predicted_output w1 w2,
     parsed_outputs input_variables0 w = (Returns predicted_output, w1) →
     is_returns (fst (update_output predicted_output variable w2)) = false) →
  ∃ e w', evaluate input_variables0 w = (Raises e, w').
Proof.
  intros Hin Hbody. rewrite evaluate_stages.
  pose proof (parsed_outputs_registry input_variables0 w) as Hreg.
  destruct (parsed_outputs input_variables0 w) as [[p|e] w1] eqn:Hparsed; [|by eauto].
  cbn [snd] in Hreg.
  destruct (update_outputs_raises p w1 variable) as (e & w' & ->); [| |by eauto].
  - rewrite Hreg. unfold values. apply list_elem_of_fmap. by exists (k, variable).
  - intros w2. by apply (Hbody p w1).
Qed.

Lemma parsed_outputs_returns (input_variables0 : gmap string input_entry)
    (w w1 : world) (predicted_output : gmap string Tensor) :
  parsed_outputs input_variables0 w = (Returns predicted_output, w1) →
  ∃ y, parsed_from y (enumerate (output_names (self w))) ∅ = Returns predicted_output.
Proof.
  intros Hparsed.
  pose proof (within_parsed_outputs input_variables0 w) as [Hconf Hout].
  rewrite Hparsed in Hconf, Hout. cbn [snd] in Hconf, Hout.
  unfold parsed_outputs in Hparsed.
  apply bind_returns in Hparsed as (x1 & w2 & _ & Hparsed).
  apply bind_returns in Hparsed as (x2 & w3 & _ & Hparsed).
  apply bind_returns in Hparsed as (x3 & w4 & _ & Hparsed).
  apply bind_returns in Hparsed as (x4 & w5 & _ & Hparsed).
  apply bind_returns in Hparsed as (y & w6 & _ & Hparsed).
  rewrite parse_outputs_run in Hparsed. injection Hparsed as Hparsed ->.
  exists y. rewrite <- Hparsed. do 2 f_equal. unfold output_names, configuration in *.
  injection Hconf as _ _ _ _ _ ->. by rewrite Hout.
Qed.

(** X9. Every registered output of kind scalar or image must be among
    the output names (the configured output order, or the registry's
    keys): if the name of one is not, [evaluate] cannot return, because
    the parsed mapping has no entry under that name and the update of
    that variable raises [KeyError]. *)
Theorem evaluate_requires_outputs_in_order (input_variables0 : gmap string input_entry)
    (w : world) (k : string) (variable : variable_record) :
  (k, variable) ∈ output_variables (self w) →
  variable_type variable = "scalar" ∨ variable_type variable = "image" →
  name variable ∉ output_names (self w) →
  (∃ e w', evaluate input_variables0 w = (Raises e, w'))
  ∧ ∀ predicted_output w1 w2,
      parsed_outputs input_variables0 w = (Returns predicted_output, w1) →
      update_output predicted_output variable w2 = (Raises (KeyError (name variable)), w2).
Proof.
  intros Hin Hkind Hname.
  assert (∀ p w1 w2, parsed_outputs input_variables0 w = (Returns p, w1) →
            update_output p variable w2 = (Raises (KeyError (name variable)), w2)) as Hbody.
  { intros p w1 w2 (y & Hparsed)%parsed_outputs_returns.
    assert (p !! name variable = None) as Hnone.
    { apply not_elem_of_dom. rewrite (parsed_from_dom _ _ _ _ Hparsed), enumerate_names.
      rewrite dom_empty_L, (left_id_L ∅ (∪)). by rewrite elem_of_list_to_set. }
    unfold update_output. destruct Hkind as [Hkind|Hkind].
    - rewrite decide_True by done. rewrite bind_lift_run. unfold subscript. by rewrite Hnone.
    - rewrite decide_False by (by rewrite Hkind). rewrite decide_True by done.
      rewrite bind_lift_run. unfold subscript. by rewrite Hnone. }
  split; [|done].
  apply (evaluate_raises_in_update input_variables0 w k variable Hin).
  intros p w1 w2 Hparsed. by rewrite (Hbody p w1 w2 Hparsed).
Qed.

(** X10. A scalar output needs a slot of exactly one element: when the
    slot parsed for it holds any other number of elements, the update of
    that variable raises at [item()] before it stores anything, and
    [evaluate] raises. *)
Theorem evaluate_scalar_slot_must_be_single (input_variables0 : gmap string input_entry)
    (w w1 : world) (predicted_output : gmap string Tensor)
    (k : string) (variable : variable_record) (t : Tensor) :
  (k, variable) ∈ output_variables (self w) →
  variable_type variable = "scalar" →
  parsed_outputs input_variables0 w = (Returns predicted_output, w1) →
  predicted_output !! name variable = Some t →
  numel t ≠ 1 →
  (∀ w2, update_output predicted_output variable w2 = (Raises (RuntimeError "item"), w2))
  ∧ ∃ e w', evaluate input_variables0 w = (Raises e, w').
Proof.
  intros Hin Hkind Hparsed Ht Hnumel.
  assert (∀ w2, update_output predicted_output variable w2
                = (Raises (RuntimeError "item"), w2)) as Hbody.
  { intros w2. unfold update_output. rewrite decide_True by done.
    rewrite bind_lift_run. unfold subscript. rewrite Ht. rewrite bind_lift_run.
    unfold item, numel in *. by destruct (tdata t) as [|x [|x' rest]]. }
  split; [done|].
  apply (evaluate_raises_in_update input_variables0 w k variable Hin).
  intros p w0 w2 Hp. rewrite Hparsed in Hp. injection Hp as <- <-. by rewrite Hbody.
Qed.

(** X11. An output whose kind is neither scalar nor image is skipped:
    after a successful [evaluate] its record is exactly what it was
    before the call, whatever the parsed mapping holds under its name. *)
Theorem evaluate_skips_other_kinds (input_variables0 : gmap string input_entry)
    (w w' : world) (out : evaluate_output) (k : string) (variable : variable_record) :
  named_registry (output_variables (self w)) →
  evaluate input_variables0 w = (Returns out, w') →
  (k, variable) ∈ output_variables (self w) →
  variable_type variable ≠ "scalar" →
  variable_type variable ≠ "image" →
  dict_get (output_variables (self w')) k = Some variable.
Proof.
  intros Hnamed (p & w1 & Hparsed & Hupdate & _ & _)%evaluate_returns Hin Hscalar Himage.
  pose proof (parsed_outputs_registry input_variables0 w) as Hreg.
  rewrite Hparsed in Hreg. cbn [snd] in Hreg. rewrite <- Hreg in Hnamed, Hin.
  destruct (update_outputs_returns _ _ _ _ _ Hnamed Hupdate Hin) as (variable' & Hvar & Hget).
  unfold updated_variable in Hvar. rewrite !decide_False in Hvar by done.
  by injection Hvar as <-.
Qed.

(** X12. The limits of an image are updated after its value is stored,
    and a failure there is not rolled back: when the back-reference for
    the lower x limit names an output that the parsed mapping lacks, the
    update raises [KeyError] for that name and the image already holds
    its new value. *)
Theorem update_output_dangling_reference (predicted_output : gmap string Tensor)
    (variable target : variable_record) (t t' : Tensor) (a : pyval) (r : string) (w : world) :
  variable_type variable = "image" →
  dict_get (output_variables (self w)) (name variable) = Some target →
  predicted_output !! name variable = Some t →
  reshape t (shape variable) = Returns t' →
  numpy t' = Returns a →
  truthy (x_min_variable target) = Some r →
  predicted_output !! r = None →
  ∃ w',
    update_output predicted_output variable w = (Raises (KeyError r), w')
    ∧ dict_get (output_variables (self w')) (name variable) = Some (set_value a target).
Proof.
  intros Hkind Hget Ht Hreshape Hnumpy Href Hr. unfold update_output.
  rewrite decide_False by (by rewrite Hkind). rewrite decide_True by done.
  rewrite bind_lift_run. unfold subscript at 1. rewrite Ht.
  rewrite bind_lift_run, Hreshape, bind_lift_run, Hnumpy, bind_run.
  destruct (assign_output_run (name variable) (set_value a) target w Hget) as (w1 & -> & Hs1).
  pose proof (stores_get _ _ _ _ _ Hget Hs1) as Hget1.
  rewrite bind_run.
  pose proof (update_limit_run predicted_output (name variable)
                x_min_variable set_x_min _ w1 Hget1) as Hlimit.
  unfold with_limit in Hlimit. cbn [x_min_variable set_value] in Hlimit.
  rewrite Href in Hlimit. unfold subscript in Hlimit. rewrite Hr in Hlimit.
  cbn in Hlimit. rewrite Hlimit. by exists w1.
Qed.

Lemma parsed_from_requires_grad (y : Tensor) (items : list (nat * string))
    (acc out : gmap string Tensor) :
  requires_grad y = true →
  (∀ k t, acc !! k = Some t → requires_grad t = true) →
  parsed_from y items acc = Returns out →
  ∀ k t, out !! k = Some t → requires_grad t = true.
Proof.
  intros Hy. revert acc. induction items as [|[idx name] items IH]; intros acc Hacc.
  { by intros [= <-]. }
  cbn [parsed_from]. destruct (getitem y idx) as [t0|e] eqn:Hrow; [|done]. cbn.
  apply IH. intros k t. destruct (decide (name = k)) as [->|Hne].
  - rewrite lookup_insert_eq. intros [= <-]. unfold getitem in Hrow.
    destruct (tshape y); [done|]. case_decide; [|done]. by injection Hrow as <-.
  - rewrite lookup_insert_ne by done. apply Hacc.
Qed.

(** X13. An image output can only be stored from a tensor that does not
    track gradients: when the tensor handed to output parsing requires
    grad, so does every slot, [numpy()] refuses it, and preparing the
    outputs raises as soon as an image output is registered. *)
Theorem prepare_outputs_image_needs_detached (y : Tensor) (w w1 : world)
    (predicted_output : gmap string Tensor) (k : string) (variable : variable_record) :
  requires_grad y = true →
  _parse_outputs y w = (Returns predicted_output, w1) →
  (k, variable) ∈ output_variables (self w) →
  variable_type variable = "image" →
  (∀ t, predicted_output !! name variable = Some t → requires_grad t = true)
  ∧ ∃ e w', _prepare_outputs predicted_output w1 = (Raises e, w').
Proof.
  intros Hy Hparse Hin Hkind. rewrite parse_outputs_run in Hparse.
  injection Hparse as Hparse <-.
  assert (∀ k t, predicted_output !! k = Some t → requires_grad t = true) as Hgrad.
  { eapply (parsed_from_requires_grad y _ ∅ predicted_output Hy); [|exact Hparse].
    intros k0 t0. by rewrite lookup_empty. }
  split; [by eauto|].
  rewrite prepare_outputs_run.
  destruct (update_outputs_raises predicted_output w variable) as (e & w' & ->);
    [| |by eauto].
  - unfold values. apply list_elem_of_fmap. by exists (k, variable).
  - intros w2. unfold update_output.
    rewrite decide_False by (by rewrite Hkind). rewrite decide_True by done.
    rewrite bind_lift_run. unfold subscript.
    destruct (predicted_output !! name variable) as [t|] eqn:Ht; [|done].
    rewrite bind_lift_run. unfold reshape.
    destruct (infer_size (shape variable) (numel t)) as [dims|e]; [|done].
    cbn [mbind outcome_bind]. rewrite bind_lift_run. unfold numpy. cbn [requires_grad].
    by rewrite (Hgrad _ _ Ht).
Qed.

(** ** Arranging features, and getting them back *)

Lemma gather_loop_run (tensors : gmap string Tensor) (names : list string)
    (features : list Tensor) (w : world) :
  for_fold names features (append_feature tensors) w
  = ((λ ts, features ++ ts) <$> gathered tensors names, w).
Proof.
  revert features. induction names as [|k names IH]; intros features.
  { cbn. by rewrite app_nil_r. }
  cbn [for_fold gathered]. rewrite bind_run, append_feature_run. unfold subscript.
  destruct (tensors !! k) as [t|]; [|done]. rewrite IH. cbn [mbind outcome_bind].
  destruct (gathered tensors names) as [ts|e]; [|done]. cbn. by rewrite <- app_assoc.
Qed.

Lemma arrange_inputs_pure (tensors : gmap string Tensor) (w : world) :
  _arrange_inputs tensors w
  = (gathered tensors (feature_names (self w)) ≫= torch_stack, w).
Proof.
  rewrite arrange_inputs_run, bind_run, gather_loop_run.
  by destruct (gathered tensors (feature_names (self w))).
Qed.

Lemma gathered_returns (tensors : gmap string Tensor) (names : list string)
    (ts : list Tensor) :
  gathered tensors names = Returns ts ↔ Forall2 (λ k t, tensors !! k = Some t) names ts.
Proof.
  revert ts. induction names as [|k names IH]; intros ts.
  { cbn. split; [intros [= <-]; constructor | by inversion 1]. }
  cbn [gathered]. unfold subscript. split.
  - destruct (tensors !! k) as [t|] eqn:Hk; [|done]. cbn.
    destruct (gathered tensors names) as [ts'|e]; [|done]. cbn. intros [= <-].
    constructor; [done | by apply IH].
  - inversion 1 as [|? t ? ts' Hk Hrest]; subst. rewrite Hk. cbn.
    apply IH in Hrest. by rewrite Hrest.
Qed.

Lemma torch_stack_returns_iff (ts : list Tensor) :
  is_returns (torch_stack ts) = true
  ↔ ts ≠ [] ∧ ∃ dims, Forall (λ t, tshape t = dims) ts.
Proof.
  destruct ts as [|t0 rest]; cbn [torch_stack].
  { split; [done | by intros [? _]]. }
  destruct (forallb _ rest) eqn:Hall; cbn.
  - split; [|done]. intros _. split; [done|]. exists (tshape t0).
    constructor; [done|]. apply Forall_forall. intros t Hin%list_elem_of_In.
    rewrite forallb_forall in Hall. by apply (bool_decide_eq_true_1 _), Hall.
  - split; [done|]. intros [_ [dims Hdims]].
    apply Forall_cons in Hdims as [Ht0 Hrest]. exfalso.
    assert (forallb (λ t', bool_decide (tshape t' = tshape t0)) rest = true) as Htrue.
    { apply forallb_forall. intros t Hin%list_elem_of_In. apply bool_decide_eq_true_2.
      rewrite Forall_forall in Hrest. rewrite (Hrest t Hin). done. }
    congruence.
Qed.

(** X14. Feature arrangement returns exactly when there is at least one
    feature name, every name has a tensor in the normalized mapping and
    all these tensors have one shape; with no feature at all (an empty
    feature order, or an empty registry and no order) it raises. *)
Theorem arrange_inputs_returns_iff (tensors : gmap string Tensor) (w : world) :
  is_returns (fst (_arrange_inputs tensors w)) = true
  ↔ feature_names (self w) ≠ []
    ∧ ∃ ts dims,
        Forall2 (λ k t, tensors !! k = Some t) (feature_names (self w)) ts
        ∧ Forall (λ t, tshape t = dims) ts.
Proof.
  rewrite arrange_inputs_pure. cbn [fst]. split.
  - destruct (gathered tensors (feature_names (self w))) as [ts|e] eqn:Hts; [|done].
    cbn. intros [Hne [dims Hdims]]%torch_stack_returns_iff.
    apply gathered_returns in Hts. split.
    + intros Hnil. rewrite Hnil in Hts. by inversion Hts.
    + by exists ts, dims.
  - intros [Hne (ts & dims & Hts & Hdims)]. apply gathered_returns in Hts as Hrun.
    rewrite Hrun. cbn. apply torch_stack_returns_iff. split; [|by exists dims].
    intros ->. inversion Hts. congruence.
Qed.

Lemma concat_chunk {A} (chunks : list (list A)) (m i : nat) (chunk : list A) :
  Forall (λ l, length l = m) chunks →
  chunks !! i = Some chunk →
  take m (drop (i * m) (concat chunks)) = chunk.
Proof.
  intros Hall. revert i. induction Hall as [|l chunks Hl _ IH]; intros i Hi; [done|].
  destruct i as [|i]; cbn in Hi.
  - injection Hi as <-. cbn [Nat.mul concat]. rewrite drop_0. by rewrite take_app_length' by done.
  - cbn [concat]. replace (S i * m) with (length l + i * m) by lia.
    rewrite drop_app_add'; [by apply IH | done].
Qed.

Lemma stack_row (ts : list Tensor) (stacked ti : Tensor) (i : nat) :
  torch_stack ts = Returns stacked →
  Forall well_shaped ts →
  ts !! i = Some ti →
  getitem stacked i
  = Returns (mkTensor (tdata ti) (tshape ti) (tdtype stacked) (requires_grad stacked)).
Proof.
  intros Hstack Hwell Hi. destruct ts as [|t0 rest]; [done|]. unfold torch_stack in Hstack.
  destruct (forallb _ rest) eqn:Hall; [|done]. injection Hstack as <-.
  assert (Forall (λ t, tshape t = tshape t0) (t0 :: rest)) as Hshapes.
  { constructor; [done|]. apply Forall_forall. intros t Hin%list_elem_of_In.
    rewrite forallb_forall in Hall. by apply (bool_decide_eq_true_1 _), Hall. }
  assert (tshape ti = tshape t0) as Hti.
  { rewrite Forall_forall in Hshapes. apply Hshapes. by eapply list_elem_of_lookup_2. }
  unfold getitem. cbn [tshape tdata tdtype requires_grad].
  rewrite decide_True by (by apply lookup_lt_Some in Hi).
  do 2 f_equal; [|done].
  transitivity (take (prod_nat (tshape t0))
                  (drop (i * prod_nat (tshape t0)) (concat (tdata <$> t0 :: rest))));
    [reflexivity|].
  apply concat_chunk.
  - apply Forall_fmap. apply Forall_forall. intros t Hin.
    rewrite Forall_forall in Hwell, Hshapes. unfold well_shaped in Hwell.
    cbn. by rewrite (Hwell t Hin), (Hshapes t Hin).
  - by rewrite list_lookup_fmap, Hi.
Qed.

(** X15. Splitting what was stacked gives the features back: when
    feature arrangement returns a vector of well-shaped tensors and
    output parsing is run on that very vector, with distinct output
    names no more numerous than the features, the output named at
    position [i] holds the elements and the shape of the feature named
    at position [i]. *)
Theorem arrange_then_parse_round_trip (tensors : gmap string Tensor) (w : world)
    (x : Tensor) (w' : world) :
  _arrange_inputs tensors w = (Returns x, w') →
  (∀ k t, k ∈ feature_names (self w) → tensors !! k = Some t → well_shaped t) →
  NoDup (output_names (self w)) →
  length (output_names (self w)) ≤ length (feature_names (self w)) →
  ∃ out,
    _parse_outputs x w' = (Returns out, w)
    ∧ dom out = list_to_set (output_names (self w))
    ∧ ∀ i output_name feature_name t,
        output_names (self w) !! i = Some output_name →
        feature_names (self w) !! i = Some feature_name →
        tensors !! feature_name = Some t →
        ∃ t', out !! output_name = Some t'
              ∧ tdata t' = tdata t ∧ tshape t' = tshape t.
Proof.
  intros Harrange Hwell Hnodup Hlen. rewrite arrange_inputs_pure in Harrange.
  destruct (gathered tensors (feature_names (self w))) as [ts|e] eqn:Hts; [|done].
  cbn in Harrange. injection Harrange as Hstack <-.
  apply gathered_returns in Hts.
  pose proof (Forall2_length _ _ _ Hts) as Hsame.
  destruct (torch_stack_returns _ _ Hstack) as (dims & Hshape & _).
  destruct (parsed_from_rows x (length ts) dims (output_names (self w)) 0 ∅ Hshape)
    as (out & Hrun & Hdom & _ & Hrows); [lia|].
  exists out. rewrite parse_outputs_run. unfold enumerate. split_and!.
  { by rewrite <- Hrun. }
  { by rewrite Hdom, dom_empty_L, (left_id_L ∅ (∪)). }
  intros i output_name feature_name t Ho Hf Ht.
  destruct (Forall2_lookup_l _ _ _ _ _ Hts Hf) as (ti & Hi & Hti).
  assert (ti = t) as -> by congruence.
  assert (Forall well_shaped ts) as Hwell'.
  { apply Forall_forall. intros t0 Hin. apply list_elem_of_lookup in Hin as [j Hj].
    destruct (Forall2_lookup_r _ _ _ _ _ Hts Hj) as (k0 & Hk0 & Ht0).
    apply (Hwell k0); [by eapply list_elem_of_lookup_2 | done]. }
  pose proof (stack_row ts x t i Hstack Hwell' Hi) as Hrow.
  rewrite (getitem_row x (length ts) dims i) in Hrow;
    [|done|by apply lookup_lt_Some in Hi].
  assert (row x i = mkTensor (tdata t) (tshape t) (tdtype x) (requires_grad x)) as Heq
    by congruence.
  exists (row x i). split; [by apply (Hrows Hnodup)|]. by rewrite Heq.
Qed.

(** ** Evaluating again *)

Lemma evaluate_from_inputs_run (tensors : gmap string Tensor) (w : world) :
  evaluate_from_inputs tensors w
  = match predicted (self w) tensors with
    | Returns predicted_output => _prepare_outputs predicted_output w
    | Raises e => (Raises e, w)
    end.
Proof.
  unfold evaluate_from_inputs, predicted. rewrite bind_run, arrange_inputs_pure.
  destruct (gathered tensors (feature_names (self w))) as [ts|e]; [|done].
  cbn [mbind outcome_bind]. destruct (torch_stack ts) as [x|e]; [|done].
  cbn [mbind outcome_bind]. rewrite bind_run, transform_inputs_run.
  destruct (transform_in_order _ x) as [f|e]; [|done].
  cbn [mbind outcome_bind]. rewrite !bind_run. cbn [get_self lift].
  destruct (_model (self w) f) as [raw|e]; [|done].
  cbn [mbind outcome_bind]. rewrite bind_run, transform_outputs_run.
  destruct (untransform_in_order _ raw) as [y|e]; [|done].
  cbn [mbind outcome_bind]. rewrite bind_run, parse_outputs_run.
  by destruct (parsed_from y _ ∅).
Qed.

Lemma predicted_ext (s s' : PyTorchModel) (tensors : gmap string Tensor) :
  configuration s' = configuration s →
  keys (input_variables s') = keys (input_variables s) →
  keys (output_variables s') = keys (output_variables s) →
  predicted s' tensors = predicted s tensors.
Proof.
  unfold configuration, predicted, feature_names, output_names.
  intros [= _ -> -> -> -> ->] -> ->. done.
Qed.

Lemma model_ext (s s' : PyTorchModel) :
  configuration s' = configuration s →
  input_variables s' = input_variables s →
  output_variables s' = output_variables s →
  s' = s.
Proof.
  destruct s, s'. unfold configuration. cbn. intros [= -> -> -> -> -> ->] -> ->. done.
Qed.

Lemma update_outputs_explicit (predicted_output : gmap string Tensor) (w : world) :
  named_registry (output_variables (self w)) →
  match updated_registry predicted_output (output_variables (self w)) with
  | Returns registry =>
      update_outputs predicted_output w
      = (Returns (), mkWorld (with_output_variables registry (self w)) (logger w))
  | Raises e => ∃ w', update_outputs predicted_output w = (Raises e, w')
  end.
Proof.
  intros [Hnodup Hnames].
  pose proof (update_outputs_loop predicted_output (output_variables (self w)) [] w
                eq_refl Hnodup Hnames) as Hloop.
  pose proof (within_update_outputs predicted_output w) as Hframe.
  unfold update_outputs in *. rewrite bind_run in *. cbn [get_self] in *.
  destruct (updated_registry _ _) as [registry|e]; [|done].
  destruct Hloop as (w' & Hrun & Hout). rewrite Hrun in Hframe |- *.
  destruct Hframe as (Hconf & Hin & Hlog). cbn [snd] in *. f_equal.
  destruct w' as [s' l']. cbn in *. subst l'. f_equal. by apply model_ext.
Qed.

(** [evaluate] in four steps, on registries with distinct names that
    hold every output under its own name. *)
Lemma evaluate_explicit (input_variables0 : gmap string input_entry) (w : world) :
  NoDup (keys (input_variables (self w))) →
  named_registry (output_variables (self w)) →
  match resolved_registry input_variables0 (input_variables (self w)) with
  | Raises e => ∃ w', evaluate input_variables0 w = (Raises e, w')
  | Returns inputs =>
    match tensors_from ∅ inputs with
    | Raises e => ∃ w', evaluate input_variables0 w = (Raises e, w')
    | Returns tensors =>
      match predicted (with_input_variables inputs (self w)) tensors with
      | Raises e => ∃ w', evaluate input_variables0 w = (Raises e, w')
      | Returns predicted_output =>
        match updated_registry predicted_output (output_variables (self w)) with
        | Raises e => ∃ w', evaluate input_variables0 w = (Raises e, w')
        | Returns registry =>
            evaluate input_variables0 w
            = (Returns (selected_output (_output_format (self w)) predicted_output registry),
               mkWorld (with_output_variables registry
                          (with_input_variables inputs (self w)))
                       (logger w ++ missing_records input_variables0
                                      (input_variables (self w))))
        end
      end
    end
  end.
Proof.
  intros Hnodup Hnamed.
  pose proof (prepare_inputs_run input_variables0 w Hnodup) as Hprepare.
  change (evaluate input_variables0)
    with (_prepare_inputs input_variables0 ≫= evaluate_from_inputs).
  destruct (resolved_registry _ _) as [inputs|e];
    [|destruct Hprepare as [w' Hprepare]; rewrite bind_run, Hprepare; by eauto].
  rewrite bind_run, Hprepare.
  destruct (tensors_from ∅ inputs) as [tensors|e]; [|by eauto].
  rewrite evaluate_from_inputs_run. cbn [self].
  destruct (predicted _ tensors) as [p|e]; [|by eauto].
  rewrite prepare_outputs_run.
  set (w1 := mkWorld _ _).
  pose proof (update_outputs_explicit p w1 Hnamed) as Hupdate. cbn in Hupdate.
  destruct (updated_registry p (output_variables (self w))) as [registry|e].
  - rewrite Hupdate, format_outputs_run. unfold selected_output. cbn.
    by repeat case_decide.
  - destruct Hupdate as [w' ->]. by eauto.
Qed.

Lemma resolved_registry_idem (input_variables0 : gmap string input_entry)
    (items inputs : dict variable_record) :
  resolved_registry input_variables0 items = Returns inputs →
  resolved_registry input_variables0 inputs = Returns inputs.
Proof.
  revert inputs. induction items as [|[k var] items IH]; intros inputs.
  { by intros [= <-]. }
  cbn [resolved_registry].
  destruct (resolved_value input_variables0 k var) as [v|e] eqn:Hv; [|done]. cbn.
  destruct (resolved_registry input_variables0 items) as [rest|e]; [|done]. cbn.
  intros [= <-]. cbn [resolved_registry].
  assert (resolved_value input_variables0 k (set_value v var) = Returns v) as ->.
  { unfold resolved_value in *. by destruct (input_variables0 !! k). }
  cbn. by rewrite (IH rest).
Qed.

Ltac record_cbn :=
  cbn [mbind outcome_bind set_value set_x_min set_x_max set_y_min set_y_max
       x_min_variable x_max_variable y_min_variable y_max_variable
       name variable_type value default shape x_min x_max y_min y_max].

Ltac limit_step :=
  intros; unfold with_limit, limit_value; record_cbn;
  match goal with |- context [truthy ?r] => destruct (truthy r) as [?|]; [|done] end;
  match goal with |- context [subscript ?p ?k] => destruct (subscript p k) as [?|?]; [|done] end;
  record_cbn;
  match goal with |- context [item ?t] => by destruct (item t) end.

Lemma with_limit_x_min (p : gmap string Tensor) n kind v d dims b1 b2 b3 b4 r1 r2 r3 r4 :
  with_limit p x_min_variable set_x_min (mkVariable n kind v d dims b1 b2 b3 b4 r1 r2 r3 r4)
  = m ← limit_value p r1 b1; Returns (mkVariable n kind v d dims m b2 b3 b4 r1 r2 r3 r4).
Proof. limit_step. Qed.

Lemma with_limit_x_max (p : gmap string Tensor) n kind v d dims b1 b2 b3 b4 r1 r2 r3 r4 :
  with_limit p x_max_variable set_x_max (mkVariable n kind v d dims b1 b2 b3 b4 r1 r2 r3 r4)
  = m ← limit_value p r2 b2; Returns (mkVariable n kind v d dims b1 m b3 b4 r1 r2 r3 r4).
Proof. limit_step. Qed.

Lemma with_limit_y_min (p : gmap string Tensor) n kind v d dims b1 b2 b3 b4 r1 r2 r3 r4 :
  with_limit p y_min_variable set_y_min (mkVariable n kind v d dims b1 b2 b3 b4 r1 r2 r3 r4)
  = m ← limit_value p r3 b3; Returns (mkVariable n kind v d dims b1 b2 m b4 r1 r2 r3 r4).
Proof. limit_step. Qed.

Lemma with_limit_y_max (p : gmap string Tensor) n kind v d dims b1 b2 b3 b4 r1 r2 r3 r4 :
  with_limit p y_max_variable set_y_max (mkVariable n kind v d dims b1 b2 b3 b4 r1 r2 r3 r4)
  = m ← limit_value p r4 b4; Returns (mkVariable n kind v d dims b1 b2 b3 m r1 r2 r3 r4).
Proof. limit_step. Qed.

Lemma limit_value_idem (p : gmap string Tensor) (r : option string) (b m : pyval) :
  limit_value p r b = Returns m → limit_value p r m = Returns m.
Proof. unfold limit_value. destruct (truthy r); [done|]. by intros [= <-]. Qed.

Lemma updated_image_fields (p : gmap string Tensor) n v d dims b1 b2 b3 b4 r1 r2 r3 r4 :
  let variable := mkVariable n "image" v d dims b1 b2 b3 b4 r1 r2 r3 r4 in
  updated_variable p variable variable
  = t ← subscript p n;
    t' ← reshape t dims;
    a ← numpy t';
    m1 ← limit_value p r1 b1;
    m2 ← limit_value p r2 b2;
    m3 ← limit_value p r3 b3;
    m4 ← limit_value p r4 b4;
    Returns (mkVariable n "image" a d dims m1 m2 m3 m4 r1 r2 r3 r4).
Proof.
  intros variable. unfold updated_variable, variable.
  cbn [name variable_type shape set_value value default x_min x_max y_min y_max
       x_min_variable x_max_variable y_min_variable y_max_variable].
  rewrite decide_False by done. rewrite decide_True by done.
  destruct (subscript p n) as [t|e]; [|done]. cbn [mbind outcome_bind].
  destruct (reshape t dims) as [t'|e]; [|done]. cbn [mbind outcome_bind].
  destruct (numpy t') as [a|e]; [|done]. cbn [mbind outcome_bind].
  unfold set_value.
  cbn [name variable_type shape value default x_min x_max y_min y_max
       x_min_variable x_max_variable y_min_variable y_max_variable].
  rewrite with_limit_x_min.
  destruct (limit_value p r1 b1) as [m1|e]; [|done]. cbn [mbind outcome_bind].
  rewrite with_limit_x_max.
  destruct (limit_value p r2 b2) as [m2|e]; [|done]. cbn [mbind outcome_bind].
  rewrite with_limit_y_min.
  destruct (limit_value p r3 b3) as [m3|e]; [|done]. cbn [mbind outcome_bind].
  by rewrite with_limit_y_max.
Qed.

Lemma updated_variable_idem (predicted_output : gmap string Tensor)
    (variable variable' : variable_record) :
  updated_variable predicted_output variable variable = Returns variable' →
  updated_variable predicted_output variable' variable' = Returns variable'
  ∧ name variable' = name variable.
Proof.
  destruct variable as [n kind v d dims b1 b2 b3 b4 r1 r2 r3 r4].
  destruct (decide (kind = "image")) as [->|Himage].
  { rewrite updated_image_fields.
    destruct (subscript predicted_output n) as [t|e] eqn:Ht; [|done]. cbn [mbind outcome_bind].
    destruct (reshape t dims) as [t'|e] eqn:Ht'; [|done]. cbn [mbind outcome_bind].
    destruct (numpy t') as [a|e] eqn:Ha; [|done]. cbn [mbind outcome_bind].
    destruct (limit_value predicted_output r1 b1) as [m1|e] eqn:H1; [|done].
    cbn [mbind outcome_bind].
    destruct (limit_value predicted_output r2 b2) as [m2|e] eqn:H2; [|done].
    cbn [mbind outcome_bind].
    destruct (limit_value predicted_output r3 b3) as [m3|e] eqn:H3; [|done].
    cbn [mbind outcome_bind].
    destruct (limit_value predicted_output r4 b4) as [m4|e] eqn:H4; [|done].
    cbn [mbind outcome_bind]. intros [= <-]. split; [|done].
    rewrite updated_image_fields, Ht. cbn [mbind outcome_bind].
    rewrite Ht'. cbn [mbind outcome_bind]. rewrite Ha. cbn [mbind outcome_bind].
    rewrite (limit_value_idem _ _ _ _ H1). cbn [mbind outcome_bind].
    rewrite (limit_value_idem _ _ _ _ H2). cbn [mbind outcome_bind].
    rewrite (limit_value_idem _ _ _ _ H3). cbn [mbind outcome_bind].
    by rewrite (limit_value_idem _ _ _ _ H4). }
  unfold updated_variable. cbn [name variable_type].
  destruct (decide (kind = "scalar")) as [Hscalar|Hscalar].
  - destruct (subscript predicted_output n) as [t|e] eqn:Ht; [|done]. cbn [mbind outcome_bind].
    destruct (item t) as [x|e] eqn:Hx; [|done]. cbn [mbind outcome_bind]. intros [= <-].
    cbn [name variable_type set_value].
    rewrite decide_True by done. rewrite Ht. cbn [mbind outcome_bind]. by rewrite Hx.
  - rewrite decide_False by done. intros [= <-]. cbn [name variable_type].
    by rewrite !decide_False by done.
Qed.

Lemma updated_registry_idem (predicted_output : gmap string Tensor)
    (items registry : dict variable_record) :
  Forall (λ item, name item.2 = item.1) items →
  updated_registry predicted_output items = Returns registry →
  updated_registry predicted_output registry = Returns registry
  ∧ keys registry = keys items
  ∧ Forall (λ item, name item.2 = item.1) registry.
Proof.
  intros Hnames. revert registry.
  induction Hnames as [|[k var] items Hname _ IH]; intros registry.
  { by intros [= <-]. }
  cbn [updated_registry]. cbn in Hname.
  destruct (updated_variable predicted_output var var) as [var'|e] eqn:Hvar; [|done]. cbn.
  destruct (updated_registry predicted_output items) as [rest|e]; [|done]. cbn.
  intros [= <-]. destruct (updated_variable_idem _ _ _ Hvar) as [Hidem Hsame].
  destruct (IH rest eq_refl) as (Hrest & Hkeys & Hnamed).
  cbn [updated_registry]. rewrite Hidem. cbn. rewrite Hrest. cbn. split_and!; [done | |].
  - unfold keys in *. cbn. by rewrite Hkeys.
  - constructor; [cbn; congruence | done].
Qed.

(** X16. Evaluating again gives the same thing.  On registries with
    distinct names that hold every output under its own name, a call of
    [evaluate] that returned, repeated with the same inputs on the
    adapter as that call left it, returns the same value and leaves the
    adapter unchanged; the only trace of the second call is in the log,
    which receives the same records once more. *)
Theorem evaluate_again (input_variables0 : gmap string input_entry) (w w1 : world)
    (out : evaluate_output) :
  NoDup (keys (input_variables (self w))) →
  named_registry (output_variables (self w)) →
  evaluate input_variables0 w = (Returns out, w1) →
  ∃ w2,
    evaluate input_variables0 w1 = (Returns out, w2)
    ∧ self w2 = self w1
    ∧ logger w2 = logger w1 ++ missing_records input_variables0 (input_variables (self w)).
Proof.
  intros Hnodup Hnamed Hrun.
  pose proof (evaluate_explicit input_variables0 w Hnodup Hnamed) as Hfirst.
  destruct (resolved_registry input_variables0 (input_variables (self w)))
    as [inputs|e] eqn:Hinputs; [|destruct Hfirst as [? ?]; congruence].
  destruct (tensors_from ∅ inputs) as [tensors|e] eqn:Htensors;
    [|destruct Hfirst as [? ?]; congruence].
  destruct (predicted _ tensors) as [p|e] eqn:Hp; [|destruct Hfirst as [? ?]; congruence].
  destruct (updated_registry p (output_variables (self w))) as [registry|e] eqn:Hregistry;
    [|destruct Hfirst as [? ?]; congruence].
  rewrite Hrun in Hfirst. injection Hfirst as -> ->.
  destruct Hnamed as [Hnodup_out Hnames].
  destruct (updated_registry_idem _ _ _ Hnames Hregistry) as (Hidem & Hkeys & Hnames').
  set (w1 := mkWorld _ _).
  assert (NoDup (keys (input_variables (self w1)))) as Hnodup1.
  { cbn [w1 self input_variables with_input_variables with_output_variables].
    by rewrite (resolved_registry_keys _ _ _ Hinputs). }
  assert (named_registry (output_variables (self w1))) as Hnamed1.
  { cbn [w1 self output_variables with_output_variables]. split; [by rewrite Hkeys | done]. }
  pose proof (evaluate_explicit input_variables0 w1 Hnodup1 Hnamed1) as Hsecond.
  cbn [w1 self input_variables output_variables with_input_variables
       with_output_variables] in Hsecond.
  rewrite (resolved_registry_idem _ _ _ Hinputs), Htensors in Hsecond.
  rewrite (predicted_ext (with_input_variables inputs (self w))) in Hsecond;
    [|done|done|by cbn].
  rewrite Hp, Hidem in Hsecond. eexists. split; [exact Hsecond|]. split; [done|].
  cbn. f_equal. unfold missing_records.
  by rewrite (resolved_registry_keys _ _ _ Hinputs).
Qed.

End Properties.

(** * The theorems at work on the two adapters *)


Lemma evaluate_dispatches_on_output_format_witness :
  ∃ out w',
    evaluate only_a (fresh adapter) = (Returns out, w')
    ∧ out = Variables (output_variables (self w')).
Proof.
  destruct (evaluate only_a (fresh adapter)) as [[out|e] w'] eqn:Hrun;
    [|vm_compute in Hrun; discriminate].
  exists out, w'. split; [reflexivity|].
  destruct (evaluate_dispatches_on_output_format only_a (fresh adapter) w' out Hrun)
    as (p & w1 & _ & _ & Hvariable & _).
  apply Hvariable. reflexivity.
Defined.

Lemma transform_outputs_configured_order_witness :
  let w := fresh (two_outputs [1; 1]%Z ∅ None [shift 1; scale 2]) in
  let x := mkTensor [7%Z] [1] torch_double false in
  _output_transformers (self w) = shift 1 :: [scale 2]
  ∧ fst (_transform_outputs x w)
    = untransform (shift 1) x ≫= untransform_in_order [scale 2].
Proof.
  intros w x. split; [reflexivity|].
  exact (proj1 (proj2 (transform_outputs_configured_order x w)) (shift 1) [scale 2] eq_refl).
Defined.

(** On the chain [shift 1; scale 2] the stage turns 7 into (7 - 1) / 2,
    where undoing the chain from its end would give 7 / 2 - 1. *)
Example transform_outputs_not_reversed :
  let w := fresh (two_outputs [1; 1]%Z ∅ None [shift 1; scale 2]) in
  let x := mkTensor [7%Z] [1] torch_double false in
  fst (_transform_outputs x w) = Returns (mkTensor [3%Z] [1] torch_double false)
  ∧ untransform_reversed [shift 1; scale 2] x
    = Returns (mkTensor [2%Z] [1] torch_double false).
Proof. split; reflexivity. Qed.

Lemma prepare_inputs_coerces_values_witness :
  NoDup (keys (input_variables (self (fresh adapter))))
  ∧ _prepare_inputs only_a (fresh adapter) = (Returns prepared_tensors, prepared_world)
  ∧ ("b", set_value (VNum 2%Z) (scalar_variable "b" 2)) ∈ input_variables (self prepared_world)
  ∧ ∃ t, torch_tensor (VNum 2%Z) = Returns t
         ∧ prepared_tensors !! "b" = Some t
         ∧ tdtype t = torch_double
         ∧ requires_grad t = true.
Proof.
  assert (NoDup (keys (input_variables (self (fresh adapter))))) as Hnodup by compute_done.
  assert (_prepare_inputs only_a (fresh adapter) = (Returns prepared_tensors, prepared_world))
    as Hrun by (vm_compute; reflexivity).
  assert (("b", set_value (VNum 2%Z) (scalar_variable "b" 2))
          ∈ input_variables (self prepared_world)) as Hin
    by apply list_elem_of_further, list_elem_of_here.
  split_and!; [done..|].
  exact (prepare_inputs_coerces_values only_a (fresh adapter) prepared_world prepared_tensors
           "b" _ Hnodup Hrun Hin).
Defined.

Lemma prepare_inputs_resolves_entry_witness :
  NoDup (keys (input_variables (self (fresh adapter))))
  ∧ _prepare_inputs only_a (fresh adapter) = (Returns prepared_tensors, prepared_world)
  ∧ ("a", scalar_variable "a" 1) ∈ input_variables (self (fresh adapter))
  ∧ only_a !! "a" = Some (AFloat 5%Z)
  ∧ ∃ v, dict_get (input_variables (self prepared_world)) "a"
         = Some (set_value v (scalar_variable "a" 1))
         ∧ v = VNum 5%Z.
Proof.
  assert (NoDup (keys (input_variables (self (fresh adapter))))) as Hnodup by compute_done.
  assert (_prepare_inputs only_a (fresh adapter) = (Returns prepared_tensors, prepared_world))
    as Hrun by (vm_compute; reflexivity).
  assert (("a", scalar_variable "a" 1) ∈ input_variables (self (fresh adapter))) as Hin
    by apply list_elem_of_here.
  assert (only_a !! "a" = Some (AFloat 5%Z)) as Ha by reflexivity.
  split_and!; [done..|].
  exact (prepare_inputs_resolves_entry only_a (fresh adapter) prepared_world prepared_tensors
           "a" _ _ Hnodup Hrun Hin Ha).
Defined.

Lemma prepare_inputs_int_entry_raises_witness :
  NoDup (keys (input_variables (self (fresh adapter))))
  ∧ ("a", scalar_variable "a" 1) ∈ input_variables (self (fresh adapter))
  ∧ int_a !! "a" = Some (AnInt 7)
  ∧ resolve_input int_a ("a", scalar_variable "a" 1) (fresh adapter)
    = (Raises (AttributeError "item"), fresh adapter)
  ∧ evaluate int_a (fresh adapter) = (Raises (AttributeError "item"), fresh adapter).
Proof.
  assert (NoDup (keys (input_variables (self (fresh adapter))))) as Hnodup by compute_done.
  assert (("a", scalar_variable "a" 1) ∈ input_variables (self (fresh adapter))) as Hin
    by apply list_elem_of_here.
  assert (int_a !! "a" = Some (AnInt 7)) as Ha by reflexivity.
  destruct (prepare_inputs_int_entry_raises int_a (fresh adapter) "a" _ 7%Z Hnodup Hin Ha)
    as (Hbody & _ & Hfirst).
  split_and!; [done | done | done | apply Hbody |].
  exact (Hfirst [] [("b", scalar_variable "b" 2)] [] eq_refl eq_refl).
Defined.

(** The float 7 under the same name is taken as it is: the call returns
    and the variable holds 7. *)
Example evaluate_float_entry_returns :
  ∃ out w',
    evaluate float_a (fresh adapter) = (Returns out, w')
    ∧ dict_get (input_variables (self w')) "a"
      = Some (set_value (VNum 7%Z) (scalar_variable "a" 1)).
Proof. vm_compute. eexists _, _. split; reflexivity. Qed.

Lemma arrange_inputs_missing_feature_witness :
  let w := fresh (two_outputs [1; 1]%Z ∅ (Some ["a"; "c"]) []) in
  "c" ∈ feature_names (self w)
  ∧ prepared_tensors !! "c" = None
  ∧ ∃ front n' back,
      feature_names (self w) = front ++ n' :: back
      ∧ Forall (λ k, is_Some (prepared_tensors !! k)) front
      ∧ prepared_tensors !! n' = None
      ∧ _arrange_inputs prepared_tensors w = (Raises (KeyError n'), w).
Proof.
  intros w.
  assert ("c" ∈ feature_names (self w)) as Hin
    by apply list_elem_of_further, list_elem_of_here.
  assert (prepared_tensors !! "c" = None) as Hc by reflexivity.
  split_and!; [done..|].
  exact (proj1 (arrange_inputs_missing_feature prepared_tensors w) "c" Hin Hc).
Defined.

Lemma evaluate_updates_image_limits_witness :
  named_registry (output_variables (self (fresh adapter)))
  ∧ ("img", image_variable "img" [1; 1]%Z (Some "low")) ∈ output_variables (self (fresh adapter))
  ∧ ∃ out w' predicted_output variable',
      evaluate only_a (fresh adapter) = (Returns out, w')
      ∧ dict_get (output_variables (self w')) "img" = Some variable'
      ∧ limit_updated predicted_output (Some "low") (VNum 0%Z) (x_min variable')
      ∧ limit_updated predicted_output None (VNum 10%Z) (x_max variable').
Proof.
  assert (named_registry (output_variables (self (fresh adapter)))) as Hnamed.
  { split; [compute_done | by repeat constructor]. }
  assert (("img", image_variable "img" [1; 1]%Z (Some "low"))
          ∈ output_variables (self (fresh adapter))) as Hin
    by apply list_elem_of_further, list_elem_of_here.
  split_and!; [done..|].
  destruct (evaluate only_a (fresh adapter)) as [[out|e] w'] eqn:Hrun;
    [|vm_compute in Hrun; discriminate].
  destruct (evaluate_updates_image_limits only_a (fresh adapter) w' out "img" _
              Hnamed Hrun Hin eq_refl)
    as (p & w1 & variable' & _ & Hget & Hx_min & Hx_max & _).
  by exists out, w', p, variable'.
Defined.

Lemma evaluate_variable_matches_tensor_witness :
  let fmt_t : gmap string string := {[ "type" := "tensor" ]} in
  let fmt_v : gmap string string := {[ "type" := "variable" ]} in
  named_registry (output_variables (self (fresh adapter)))
  ∧ fmt_t !! "type" = Some "tensor"
  ∧ fmt_v !! "type" = Some "variable"
  ∧ ∃ predicted_output wt registry wv variable' t,
      evaluate only_a (with_output_format fmt_t (fresh adapter))
      = (Returns (Tensors predicted_output), wt)
      ∧ evaluate only_a (with_output_format fmt_v (fresh adapter))
        = (Returns (Variables registry), wv)
      ∧ dict_get registry "low" = Some variable'
      ∧ predicted_output !! "low" = Some t
      ∧ item t = Returns 5%Z
      ∧ value variable' = VNum 5%Z.
Proof.
  intros fmt_t fmt_v.
  assert (named_registry (output_variables (self (fresh adapter)))) as Hnamed.
  { split; [compute_done | by repeat constructor]. }
  split_and!; [done | reflexivity | reflexivity |].
  destruct (evaluate only_a (with_output_format fmt_t (fresh adapter)))
    as [[[p|r|c]|e] wt] eqn:Hrun; [| vm_compute in Hrun; discriminate..].
  destruct (evaluate_variable_matches_tensor only_a (fresh adapter) wt fmt_t fmt_v p
              Hnamed eq_refl eq_refl Hrun) as (registry & wv & Hvariable & Hscalars).
  destruct (Hscalars "low" (scalar_variable "low" 0)) as (variable' & t & x & Hget & Ht & Hx & Hv);
    [apply list_elem_of_here | reflexivity |].
  assert (x = 5%Z) as ->.
  { vm_compute in Hrun. injection Hrun as <- _. vm_compute in Ht.
    injection Ht as <-. vm_compute in Hx. by injection Hx. }
  by exists p, wt, registry, wv, variable', t.
Defined.


(** With a scalar registered before the image the error of [evaluate]
    need not be the one of [reshape]: here the scalar's slot holds three
    elements and its [item()] raises first, while the image's slot of
    three elements does not fit its shape of four by four either. *)
Example evaluate_raises_before_reshape :
  let variable := image_variable "img" [4; 4]%Z None in
  let t := mkTensor [4; 5; 6]%Z [3] torch_double false in
  ("img", variable) ∈ output_variables (self (fresh scalar_then_image))
  ∧ (∃ predicted_output w1,
       parsed_outputs only_a (fresh scalar_then_image) = (Returns predicted_output, w1)
       ∧ predicted_output !! name variable = Some t)
  ∧ Z.of_nat (numel t) ≠ prod_Z (shape variable)
  ∧ ∃ w', evaluate only_a (fresh scalar_then_image) = (Raises (RuntimeError "item"), w').
Proof.
  intros variable t. split_and!.
  - apply list_elem_of_further, list_elem_of_here.
  - vm_compute. eexists _, _. split; reflexivity.
  - vm_compute. discriminate.
  - vm_compute. eexists. reflexivity.
Qed.


Lemma evaluate_without_type_key_witness :
  let w := fresh (two_outputs [1; 1]%Z ∅ None []) in
  _output_format (self w) !! "type" = None
  ∧ ∃ w',
      evaluate only_a w
      = (Returns (Values [("low", VNum 5%Z); ("img", VArray [2%Z] [1; 1])]), w').
Proof.
  intros w. split; [reflexivity|].
  rewrite (evaluate_without_type_key only_a w eq_refl).
  vm_compute. eexists. reflexivity.
Defined.

(** * The further properties at work *)

Lemma transform_inputs_stops_at_first_failure_witness :
  let w := fresh (with_input_transformers [shift 1; broken; scale 2] adapter) in
  let x := mkTensor [7%Z] [1] torch_double false in
  let y := mkTensor [8%Z] [1] torch_double false in
  _input_transformers (self w) = [shift 1] ++ broken :: [scale 2]
  ∧ transform_in_order [shift 1] x = Returns y
  ∧ transform broken y = Raises (RuntimeError "transform")
  ∧ _transform_inputs x w = (Raises (RuntimeError "transform"), w).
Proof.
  intros w x y. split_and!; [reflexivity..|].
  exact (transform_inputs_stops_at_first_failure x y w [shift 1] [scale 2] broken _
           eq_refl eq_refl eq_refl).
Defined.

Lemma transformers_setter_inserts_witness :
  let w := fresh (two_outputs [1; 1]%Z ∅ None [shift 1; shift 3]) in
  (PY_SSIZE_T_MIN ≤ -1 ≤ PY_SSIZE_T_MAX)%Z
  ∧ (output_transformers_setter (scale 2, (-1)%Z) ≫= λ _, output_transformers) w
    = (Returns [shift 1; scale 2; shift 3],
       mkWorld (with_output_transformers [shift 1; scale 2; shift 3] (self w)) (logger w))
  ∧ ¬ (PY_SSIZE_T_MIN ≤ 2 ^ 63 ≤ PY_SSIZE_T_MAX)%Z
  ∧ output_transformers_setter (scale 2, (2 ^ 63)%Z) w = (Raises OverflowError, w).
Proof.
  intros w.
  assert (PY_SSIZE_T_MIN ≤ -1 ≤ PY_SSIZE_T_MAX)%Z as Hfits
    by (unfold PY_SSIZE_T_MIN, PY_SSIZE_T_MAX; lia).
  assert (¬ (PY_SSIZE_T_MIN ≤ 2 ^ 63 ≤ PY_SSIZE_T_MAX)%Z) as Hbeyond
    by (unfold PY_SSIZE_T_MIN, PY_SSIZE_T_MAX; lia).
  split; [exact Hfits|]. split; [|split; [exact Hbeyond|]].
  - destruct (proj2 (proj1 (transformers_setter_inserts (scale 2) (-1)%Z w) Hfits))
      as (i & _ & Hrun & _ & _ & Hnegative & _).
    assert (i = 1%nat) as -> by (subst w; cbn in Hnegative; lia).
    exact Hrun.
  - exact (proj2 (proj2 (transformers_setter_inserts (scale 2) (2 ^ 63)%Z w) Hbeyond)).
Defined.

Lemma inserted_transformer_is_applied_in_place_witness :
  let w := fresh (with_input_transformers [shift 1] adapter) in
  let x := mkTensor [7%Z] [1] torch_double false in
  (PY_SSIZE_T_MIN ≤ 0 ≤ PY_SSIZE_T_MAX)%Z
  ∧ ∃ w',
      input_transformers_setter (scale 2, 0%Z) w = (Returns (), w')
      ∧ fst (_transform_inputs x w') = Returns (mkTensor [15%Z] [1] torch_double false).
Proof.
  intros w x.
  assert (PY_SSIZE_T_MIN ≤ 0 ≤ PY_SSIZE_T_MAX)%Z as Hfits
    by (unfold PY_SSIZE_T_MIN, PY_SSIZE_T_MAX; lia).
  split; [done|].
  destruct (proj1 (inserted_transformer_is_applied_in_place (scale 2) 0%Z x w Hfits))
    as (i & w' & Hset & _ & Hplace & Hrun).
  assert (i = 0%nat) as -> by (subst w; cbn in Hplace; lia).
  exists w'. split; [exact Hset|]. by rewrite Hrun.
Defined.

Lemma evaluate_ignores_unregistered_name_witness :
  ("zz" ∉ keys (input_variables (self (fresh adapter))))
  ∧ evaluate (<[ "zz" := AnObject ]> only_a) (fresh adapter) = evaluate only_a (fresh adapter).
Proof.
  assert ("zz" ∉ keys (input_variables (self (fresh adapter)))) as Hfresh by compute_done.
  split; [done|].
  exact (evaluate_ignores_unregistered_name only_a "zz" AnObject (fresh adapter) Hfresh).
Defined.

Lemma evaluate_failure_keeps_earlier_inputs_witness :
  let front := [("a", scalar_variable "a" 1)] in
  let front' := [("a", set_value (VNum 1%Z) (scalar_variable "a" 1))] in
  let back : dict (variable_record (scalar := Z)) := [] in
  NoDup (keys (input_variables (self (fresh adapter))))
  ∧ input_variables (self (fresh adapter)) = front ++ ("b", scalar_variable "b" 2) :: back
  ∧ resolved_registry bad_b front = Returns front'
  ∧ bad_b !! "b" = Some AnObject
  ∧ entry_value (scalar := Z) AnObject = Raises (AttributeError "item")
  ∧ evaluate bad_b (fresh adapter)
    = (Raises (AttributeError "item"),
       mkWorld (with_input_variables (front' ++ ("b", scalar_variable "b" 2) :: back) adapter)
               [missing_record "a"]).
Proof.
  intros front front' back.
  assert (NoDup (keys (input_variables (self (fresh adapter))))) as Hnodup by compute_done.
  split_and!; [done | reflexivity..|].
  exact (evaluate_failure_keeps_earlier_inputs bad_b (fresh adapter) front front' back
           "b" (scalar_variable "b" 2) AnObject _ Hnodup eq_refl eq_refl eq_refl eq_refl).
Defined.

Lemma parse_outputs_rows_witness :
  let w := fresh adapter in
  let y := mkTensor [5; 2]%Z [2; 1] torch_double false in
  tshape y = [2; 1]
  ∧ (length (output_names (self w)) ≤ 2)%nat
  ∧ NoDup (output_names (self w))
  ∧ ∃ out,
      _parse_outputs y w = (Returns out, w)
      ∧ dom out = list_to_set (output_names (self w))
      ∧ out !! "img" = Some (row y 1).
Proof.
  intros w y.
  assert (length (output_names (self w)) ≤ 2)%nat as Hrows by (simpl; lia).
  assert (NoDup (output_names (self w))) as Hnodup by compute_done.
  split_and!; [reflexivity | done | done |].
  destruct (parse_outputs_rows y w 2 [1] eq_refl Hrows) as (out & Hrun & Hdom & Hslots).
  exists out. split_and!; [done | done |].
  exact (Hslots Hnodup 1%nat "img" eq_refl).
Defined.


Lemma evaluate_requires_outputs_in_order_witness :
  let variable := image_variable "img" [1; 1]%Z (Some "low") in
  ("img", variable) ∈ output_variables (self (fresh low_only))
  ∧ variable_type variable = "image"
  ∧ (name variable ∉ output_names (self (fresh low_only)))
  ∧ ∃ e w', evaluate only_a (fresh low_only) = (Raises e, w').
Proof.
  intros variable.
  assert (("img", variable) ∈ output_variables (self (fresh low_only))) as Hin
    by apply list_elem_of_further, list_elem_of_here.
  assert (name variable ∉ output_names (self (fresh low_only))) as Hout by compute_done.
  split_and!; [done | reflexivity | done |].
  exact (proj1 (evaluate_requires_outputs_in_order only_a (fresh low_only) "img" variable
                  Hin (or_intror eq_refl) Hout)).
Defined.

Lemma evaluate_scalar_slot_must_be_single_witness :
  let w := fresh one_scalar in
  let variable := scalar_variable "low" 0 in
  let t := mkTensor [1; 2; 3; 4; 5; 6]%Z [6] torch_double false in
  ("low", variable) ∈ output_variables (self w)
  ∧ variable_type variable = "scalar"
  ∧ parsed_outputs only_a w = (Returns {[ "low" := t ]}, snd (parsed_outputs only_a w))
  ∧ ({[ "low" := t ]} : gmap string Tensor) !! name variable = Some t
  ∧ numel t ≠ 1%nat
  ∧ update_output {[ "low" := t ]} variable w = (Raises (RuntimeError "item"), w)
  ∧ ∃ e w', evaluate only_a w = (Raises e, w').
Proof.
  intros w variable t.
  assert (("low", variable) ∈ output_variables (self w)) as Hin by apply list_elem_of_here.
  assert (parsed_outputs only_a w = (Returns {[ "low" := t ]}, snd (parsed_outputs only_a w)))
    as Hparsed by (vm_compute; reflexivity).
  assert (numel t ≠ 1%nat) as Hsix by (vm_compute; discriminate).
  destruct (evaluate_scalar_slot_must_be_single only_a w _ _ "low" variable t
              Hin eq_refl Hparsed eq_refl Hsix) as [Hupdate Hraises].
  split_and!; [done | reflexivity | done | reflexivity | done | apply Hupdate | done].
Defined.

Lemma evaluate_skips_other_kinds_witness :
  named_registry (output_variables (self (fresh with_table)))
  ∧ ("tab", table_variable "tab") ∈ output_variables (self (fresh with_table))
  ∧ variable_type (table_variable "tab") ≠ "scalar"
  ∧ variable_type (table_variable "tab") ≠ "image"
  ∧ ∃ out w',
      evaluate only_a (fresh with_table) = (Returns out, w')
      ∧ dict_get (output_variables (self w')) "tab" = Some (table_variable "tab").
Proof.
  assert (named_registry (output_variables (self (fresh with_table)))) as Hnamed.
  { split; [compute_done | by repeat constructor]. }
  assert (("tab", table_variable "tab") ∈ output_variables (self (fresh with_table))) as Hin
    by apply list_elem_of_further, list_elem_of_here.
  assert (variable_type (table_variable "tab") ≠ "scalar") as Hscalar by discriminate.
  assert (variable_type (table_variable "tab") ≠ "image") as Himage by discriminate.
  split_and!; [done..|].
  destruct (evaluate only_a (fresh with_table)) as [[out|e] w'] eqn:Hrun;
    [|vm_compute in Hrun; discriminate].
  exists out, w'. split; [reflexivity|].
  exact (evaluate_skips_other_kinds only_a (fresh with_table) w' out "tab" _
           Hnamed Hrun Hin Hscalar Himage).
Defined.

Lemma update_output_dangling_reference_witness :
  let variable := image_variable "img" [1; 1]%Z (Some "low") in
  let t := mkTensor [2%Z] [1] torch_double false in
  let t' := mkTensor [2%Z] [1; 1] torch_double false in
  let p : gmap string Tensor := {[ "img" := t ]} in
  variable_type variable = "image"
  ∧ dict_get (output_variables (self (fresh adapter))) (name variable) = Some variable
  ∧ p !! name variable = Some t
  ∧ reshape t (shape variable) = Returns t'
  ∧ numpy t' = Returns (VArray [2%Z] [1; 1])
  ∧ truthy (x_min_variable variable) = Some "low"
  ∧ p !! "low" = None
  ∧ ∃ w',
      update_output p variable (fresh adapter) = (Raises (KeyError "low"), w')
      ∧ dict_get (output_variables (self w')) "img"
        = Some (set_value (VArray [2%Z] [1; 1]) variable).
Proof.
  intros variable t t' p. split_and!; [reflexivity..|].
  exact (update_output_dangling_reference p variable variable t t' (VArray [2%Z] [1; 1])
           "low" (fresh adapter) eq_refl eq_refl eq_refl eq_refl eq_refl eq_refl eq_refl).
Defined.

Lemma prepare_outputs_image_needs_detached_witness :
  let w := fresh adapter in
  let y := mkTensor [5; 2]%Z [2] torch_double true in
  requires_grad y = true
  ∧ ("img", image_variable "img" [1; 1]%Z (Some "low")) ∈ output_variables (self w)
  ∧ ∃ predicted_output w1,
      _parse_outputs y w = (Returns predicted_output, w1)
      ∧ ∃ e w', _prepare_outputs predicted_output w1 = (Raises e, w').
Proof.
  intros w y.
  assert (("img", image_variable "img" [1; 1]%Z (Some "low")) ∈ output_variables (self w))
    as Hin by apply list_elem_of_further, list_elem_of_here.
  split_and!; [reflexivity | done |].
  destruct (_parse_outputs y w) as [[p|e] w1] eqn:Hparse;
    [|vm_compute in Hparse; discriminate].
  exists p, w1. split; [reflexivity|].
  exact (proj2 (prepare_outputs_image_needs_detached y w w1 p "img" _
                  eq_refl Hparse Hin eq_refl)).
Defined.

Lemma arrange_inputs_returns_iff_witness :
  is_returns (fst (_arrange_inputs prepared_tensors (fresh adapter))) = true
  ∧ ∃ ts dims,
      Forall2 (λ k t, prepared_tensors !! k = Some t) (feature_names (self (fresh adapter))) ts
      ∧ Forall (λ t, tshape t = dims) ts.
Proof.
  split; [reflexivity|].
  exact (proj2 (proj1 (arrange_inputs_returns_iff prepared_tensors (fresh adapter)) eq_refl)).
Defined.

Lemma arrange_then_parse_round_trip_witness :
  let w := fresh adapter in
  (∀ k t, k ∈ feature_names (self w) → prepared_tensors !! k = Some t → well_shaped t)
  ∧ NoDup (output_names (self w))
  ∧ (length (output_names (self w)) ≤ length (feature_names (self w)))%nat
  ∧ ∃ x w',
      _arrange_inputs prepared_tensors w = (Returns x, w')
      ∧ ∃ out,
          _parse_outputs x w' = (Returns out, w)
          ∧ ∃ t', out !! "img" = Some t' ∧ tdata t' = [2%Z] ∧ tshape t' = [].
Proof.
  intros w.
  assert (∀ k t, k ∈ feature_names (self w) → prepared_tensors !! k = Some t → well_shaped t)
    as Hshaped.
  { intros k t Hin Hk. change (feature_names (self w)) with ["a"; "b"] in Hin.
    apply elem_of_cons in Hin as [->|Hin]; [by injection Hk as <-|].
    apply elem_of_cons in Hin as [->|Hin]; [by injection Hk as <-|].
    by apply elem_of_nil in Hin. }
  assert (NoDup (output_names (self w))) as Hnodup by compute_done.
  assert (length (output_names (self w)) ≤ length (feature_names (self w)))%nat as Hlen
    by (simpl; lia).
  split_and!; [done..|].
  destruct (_arrange_inputs prepared_tensors w) as [[x|e] w'] eqn:Harrange;
    [|vm_compute in Harrange; discriminate].
  exists x, w'. split; [reflexivity|].
  destruct (arrange_then_parse_round_trip prepared_tensors w x w' Harrange Hshaped Hnodup Hlen)
    as (out & Hparse & _ & Hslots).
  exists out. split; [done|].
  exact (Hslots 1%nat "img" "b" (mkTensor [2%Z] [] torch_double true) eq_refl eq_refl eq_refl).
Defined.

Lemma evaluate_again_witness :
  NoDup (keys (input_variables (self (fresh adapter))))
  ∧ named_registry (output_variables (self (fresh adapter)))
  ∧ ∃ out w1 w2,
      evaluate only_a (fresh adapter) = (Returns out, w1)
      ∧ evaluate only_a w1 = (Returns out, w2)
      ∧ self w2 = self w1.
Proof.
  assert (NoDup (keys (input_variables (self (fresh adapter))))) as Hnodup by compute_done.
  assert (named_registry (output_variables (self (fresh adapter)))) as Hnamed.
  { split; [compute_done | by repeat constructor]. }
  split_and!; [done..|].
  destruct (evaluate only_a (fresh adapter)) as [[out|e] w1] eqn:Hrun;
    [|vm_compute in Hrun; discriminate].
  destruct (evaluate_again only_a (fresh adapter) w1 out Hnodup Hnamed Hrun)
    as (w2 & Hsecond & Hself & _).
  by exists out, w1, w2.
Defined.
